(** * Threshold alerting of the lab monitor bot

    A shallow embedding of the alert loop of
    [User_awareness/telegram_bot.py] ([_get], [track_alert],
    [should_alert], [poll_alerts] and the registration line of [handle]),
    and the properties of its cooldown bookkeeping.

    The registry answer is the parsed JSON document, a tree of Python
    values; the Python operations the loop applies to it ([dict.get],
    truthiness, [is not None], the ordering operators, iteration, hashing
    of a dictionary key) are written out with the exceptions they raise.
    The two module globals [KNOWN_CHATS] and [_last_alert] are fields of
    an explicit state, threaded through a state-and-exception monad.
    [handle] runs in a thread of its own (lines 262 to 265): what it does
    to [KNOWN_CHATS] while the loop is at work reaches the loop at the
    moments the loop looks at the set. *)

From Stdlib Require Import ZArith QArith Qcanon String Ascii.
From stdpp Require Import base numbers strings list gmap.

Local Open Scope Z_scope.

(** ** Parsed JSON values *)

(** A number is an exact rational: every finite [int] and [float] is one,
    and Python orders and equates mixed [int]/[float] values exactly. The
    non-finite floats are outside the model. An object keeps its items in
    order; a key is looked up by its first occurrence. *)
#[warnings="-register-all"]
Inductive json : Type :=
| JNull
| JBool (b : bool)
| JNum (q : Qc)
| JStr (s : string)
| JArr (xs : list json)
| JObj (kvs : list (string * json)).

Definition JInt (z : Z) : json := JNum (Qc_of_Z z).

(** The exceptions the loop can meet. [DeliveryError] stands for whatever
    [bot.sendMessage] raises when a delivery fails; [RuntimeError] is
    what the iterator of a set raises when the set has changed size
    since the iteration began. *)
Inductive exn : Type :=
| AttributeError
| TypeError
| ValueError
| RuntimeError
| DeliveryError.

Inductive result (A : Type) : Type :=
| Ok (a : A)
| Raise (e : exn).
Arguments Ok {A} a.
Arguments Raise {A} e.

(** ** Python operations on JSON values *)

Module Py.

Fixpoint assoc (k : string) (kvs : list (string * json)) : option json :=
  match kvs with
  | [] => None
  | (k', v) :: rest => if String.eqb k k' then Some v else assoc k rest
  end.

(** [o.get(k, d)]: only a [dict] has the method. *)
Definition get (o : json) (k : string) (d : json) : result json :=
  match o with
  | JObj kvs => Ok (default d (assoc k kvs))
  | _ => Raise AttributeError
  end.

(** [x is None] *)
Definition is_None (x : json) : bool :=
  match x with JNull => true | _ => false end.

(** [bool] is a subclass of [int]: [True] is 1 and [False] is 0. *)
Definition as_number (x : json) : option Qc :=
  match x with
  | JBool true => Some (Qc_of_Z 1)
  | JBool false => Some (Qc_of_Z 0)
  | JNum q => Some q
  | _ => None
  end.

(** [bool(x)] *)
Definition truthy (x : json) : bool :=
  match x with
  | JNull => false
  | JBool b => b
  | JNum q => negb (bool_decide (q = Qc_of_Z 0))
  | JStr s => negb (String.eqb s "")
  | JArr xs => match xs with [] => false | _ => true end
  | JObj kvs => match kvs with [] => false | _ => true end
  end.

(** [a or b] *)
Definition or_ (a b : json) : json := if truthy a then a else b.

(** [a == b]; never raises. *)
Fixpoint eq (a b : json) {struct a} : bool :=
  match a, b with
  | JNull, JNull => true
  | JStr s, JStr t => String.eqb s t
  | JArr xs, JArr ys =>
      (fix go (xs ys : list json) : bool :=
         match xs, ys with
         | [], [] => true
         | x :: xs', y :: ys' => eq x y && go xs' ys'
         | _, _ => false
         end) xs ys
  | JObj kvs, JObj kvs' =>
      (fix go (seen : list string) (l : list (string * json)) : bool :=
         match l with
         | [] => true
         | (k, v) :: l' =>
             (if bool_decide (k ∈ seen) then true
              else match assoc k kvs' with
                   | Some v' => eq v v'
                   | None => false
                   end)
             && go (k :: seen) l'
         end) [] kvs
      && forallb (λ kv, bool_decide (is_Some (assoc kv.1 kvs))) kvs'
  | JBool x, JBool y => Bool.eqb x y
  | JBool x, JNum q => bool_decide (as_number (JBool x) = Some q)
  | JNum p, JBool y => bool_decide (Some p = as_number (JBool y))
  | JNum p, JNum q => bool_decide (p = q)
  | _, _ => false
  end.

(** [a < b]. Numbers (and booleans) are ordered by value, strings by
    code point, lists lexicographically on the first pair of unequal
    items; every other pairing raises [TypeError]. *)
Fixpoint lt (a b : json) {struct a} : result bool :=
  match a, b with
  | JStr s, JStr t => Ok (String.ltb s t)
  | JArr xs, JArr ys =>
      (fix go (xs ys : list json) : result bool :=
         match xs, ys with
         | [], [] => Ok false
         | [], _ :: _ => Ok true
         | _ :: _, [] => Ok false
         | x :: xs', y :: ys' => if eq x y then go xs' ys' else lt x y
         end) xs ys
  | _, _ =>
      match as_number a, as_number b with
      | Some p, Some q => Ok (bool_decide (p < q)%Qc)
      | _, _ => Raise TypeError
      end
  end.

(** [a > b] *)
Definition gt (a b : json) : result bool := lt b a.

(** [for x in o]: a list yields its items, a dictionary its keys, a
    string its characters; nothing else is iterable. Every item a string
    yields is a string again, which is all the loop can observe of it. *)
Definition iter (o : json) : result (list json) :=
  match o with
  | JArr xs => Ok xs
  | JObj kvs => Ok (map (λ kv, JStr kv.1) kvs)
  | JStr s => Ok (map (λ c, JStr (String c EmptyString)) (list_ascii_of_string s))
  | _ => Raise TypeError
  end.

(** The hashable values, up to [==]: [True], [1] and [1.0] are one key. *)
Inductive key : Type :=
| KNone
| KNum (q : Qc)
| KStr (s : string).

(** [hash(x)], as a dictionary needs it: lists and dictionaries are
    unhashable. *)
Definition hashable (x : json) : result key :=
  match x with
  | JNull => Ok KNone
  | JStr s => Ok (KStr s)
  | JArr _ | JObj _ => Raise TypeError
  | _ => match as_number x with
         | Some q => Ok (KNum q)
         | None => Raise TypeError
         end
  end.

End Py.

Global Instance key_eq_dec : EqDecision Py.key.
Proof. solve_decision. Defined.

Global Instance key_countable : Countable Py.key.
Proof.
  refine (inj_countable'
    (λ k, match k with
          | Py.KNone => inl ()
          | Py.KNum q => inr (inl q)
          | Py.KStr s => inr (inr s)
          end)
    (λ x, match x with
          | inl _ => Py.KNone
          | inr (inl q) => Py.KNum q
          | inr (inr s) => Py.KStr s
          end) _).
  intros []; reflexivity.
Defined.

(** ** The process state and its environment *)

(** The text of an alert, kept as the values the f-string interpolates:
    [f"ALERT {lab_id}: {quantity} {value} {>|<} {bound} (sensor {sid})"]. *)
Record message : Type := Message {
  msg_lab : json;
  msg_quantity : string;
  msg_value : json;
  msg_above : bool;
  msg_bound : json;
  msg_sensor : json
}.

(** What the process does to the outside, and what it writes down. *)
Inductive event : Type :=
| Slept (secs : Z)
| Fetched (endpoint : string)
| Sent (chat : Z) (m : message)
| Tracked (lab : Py.key) (kind : string) (ts : Z).

(** The two module globals, the number of clock readings and delivery
    attempts made so far, the number of times an iteration over
    [KNOWN_CHATS] has looked at the set so far, and the journal of
    events, newest first. *)
Record world : Type := World {
  KNOWN_CHATS : gset Z;
  _last_alert : gmap (Py.key * string) Z;
  clock_reads : nat;
  send_calls : nat;
  looks : nat;
  journal : list event
}.

(** The state at process start (lines 22 and 23). *)
Definition boot : world :=
  {| KNOWN_CHATS := ∅; _last_alert := ∅;
     clock_reads := 0; send_calls := 0; looks := 0; journal := [] |}.

Definition record (e : event) (w : world) : world :=
  {| KNOWN_CHATS := KNOWN_CHATS w; _last_alert := _last_alert w;
     clock_reads := clock_reads w; send_calls := send_calls w;
     looks := looks w; journal := e :: journal w |}.

Definition tick_clock (w : world) : world :=
  {| KNOWN_CHATS := KNOWN_CHATS w; _last_alert := _last_alert w;
     clock_reads := S (clock_reads w); send_calls := send_calls w;
     looks := looks w; journal := journal w |}.

Definition count_send (w : world) : world :=
  {| KNOWN_CHATS := KNOWN_CHATS w; _last_alert := _last_alert w;
     clock_reads := clock_reads w; send_calls := S (send_calls w);
     looks := looks w; journal := journal w |}.

(** [_last_alert[(k, kd)] = ts] *)
Definition store (k : Py.key) (kd : string) (ts : Z) (w : world) : world :=
  {| KNOWN_CHATS := KNOWN_CHATS w;
     _last_alert := <[(k, kd) := ts]> (_last_alert w);
     clock_reads := clock_reads w; send_calls := send_calls w;
     looks := looks w; journal := journal w |}.

(** [KNOWN_CHATS.add(chat)] *)
Definition add_chat (chat : Z) (w : world) : world :=
  {| KNOWN_CHATS := {[chat]} ∪ KNOWN_CHATS w; _last_alert := _last_alert w;
     clock_reads := clock_reads w; send_calls := send_calls w;
     looks := looks w; journal := journal w |}.

(** The configuration read at import (lines 19 and 20), the clock, the
    chat service, the interpreter and the other thread: [time_time n] is
    the value of the [n]-th evaluation of [int(time.time())], and
    [sendMessage_returns n] tells whether the [n]-th call of
    [bot.sendMessage] returns or raises. A set yields its items in the
    order of its hash table, which the program does not choose:
    [set_order K l] is the position, in the list [l] of the items of the
    set [K] not yet yielded, of the item that comes next. [arrivals n]
    are the chats the
    handler thread has added to [KNOWN_CHATS] (line 130) since the
    previous look when an iteration over it looks at the set for the
    [n]-th time. *)
Record env : Type := Env {
  ALERT_POLL_SEC : Z;
  ALERT_COOLDOWN_SEC : Z;
  time_time : nat → Z;
  sendMessage_returns : nat → bool;
  set_order : gset Z → list Z → nat;
  arrivals : nat → list Z
}.

(** [KNOWN_CHATS.add(chat)] for each of [chats], by the handler thread. *)
Definition add_chats (chats : list Z) (w : world) : world :=
  {| KNOWN_CHATS := list_to_set chats ∪ KNOWN_CHATS w;
     _last_alert := _last_alert w;
     clock_reads := clock_reads w; send_calls := send_calls w;
     looks := looks w; journal := journal w |}.

Definition count_look (w : world) : world :=
  {| KNOWN_CHATS := KNOWN_CHATS w; _last_alert := _last_alert w;
     clock_reads := clock_reads w; send_calls := send_calls w;
     looks := S (looks w); journal := journal w |}.

(** The items of a list in the order [pick] yields them. *)
Fixpoint arrange (pick : list Z → nat) (n : nat) (l : list Z) : list Z :=
  match n, l with
  | S n', x :: _ =>
      let i := (pick l mod length l)%nat in
      nth i l x :: arrange pick n' (delete i l)
  | _, _ => []
  end.

(** [list(K)]: the items of a set in the order an iteration yields
    them. *)
Definition iteration (E : env) (K : gset Z) : list Z :=
  arrange (set_order E K) (size K) (elements K).

(** What [requests.get(url, timeout=5)], [raise_for_status()] and
    [r.json()] come to in one call of [_get]. *)
Inductive response : Type :=
| Unreachable
| BadStatus
| NotJson
| Body (j : json).

(** ** State and exceptions *)

Definition M (A : Type) : Type := world → result A * world.

Definition ret {A} (a : A) : M A := λ w, (Ok a, w).

Definition bind {A B} (m : M A) (k : A → M B) : M B := λ w,
  match m w with
  | (Ok a, w') => k a w'
  | (Raise e, w') => (Raise e, w')
  end.

Definition lift {A} (r : result A) : M A := λ w, (r, w).

(** Reading a global. *)
Definition read {A} (f : world → A) : M A := λ w, (Ok (f w), w).

Notation "'let*' x ':=' m 'in' k" := (bind m (λ x, k))
  (at level 10, x pattern, m at level 100, k at level 200).

(** [for x in xs: body] *)
Fixpoint for_each {A} (xs : list A) (body : A → M unit) : M unit :=
  match xs with
  | [] => ret tt
  | x :: xs' => let* _ := body x in for_each xs' body
  end.

Definition outcome {A} (m : M A) (w : world) : result A := (m w).1.
Definition after {A} (m : M A) (w : world) : world := (m w).2.

(** ** The alert loop *)

(** One of the four threshold checks of [poll_alerts]. [kind] is both the
    key of the bound in the lab's thresholds and the alert kind; [above]
    tells [>] from [<]; [fallback] is the second argument of
    [thr.get(kind, ...)]; [quantity] is the word used in the message. *)
Record check : Type := MkCheck {
  kind : string;
  above : bool;
  fallback : Z;
  quantity : string
}.

Definition t_high : check := MkCheck "t_high" true 999 "temp".
Definition t_low : check := MkCheck "t_low" false (-999) "temp".
Definition h_high : check := MkCheck "h_high" true 999 "humidity".
Definition h_low : check := MkCheck "h_low" false (-999) "humidity".

(** The left operand of the [and] of lines 95, 100, 106 and 111:
    [v > thr.get(kind, 999)] or [v < thr.get(kind, -999)]. *)
Definition violates (c : check) (thr v : json) : result bool :=
  match Py.get thr (kind c) (JInt (fallback c)) with
  | Ok b => if above c then Py.gt v b else Py.lt v b
  | Raise e => Raise e
  end.

Section Loop.

Variable E : env.

(** [int(time.time())] *)
Definition now : M Z := λ w,
  (Ok (time_time E (clock_reads w)), tick_clock w).

(** [time.sleep(secs)] refuses a negative length. (A length beyond what
    the timer of the platform can hold, some 9.2e9 s, is outside the
    model.) *)
Definition sleep (secs : Z) : M unit := λ w,
  if bool_decide (secs < 0) then (Raise ValueError, w)
  else (Ok tt, record (Slept secs) w).

(** [bot.sendMessage(chat, msg)] *)
Definition sendMessage (chat : Z) (msg : message) : M unit := λ w,
  if sendMessage_returns E (send_calls w)
  then (Ok tt, record (Sent chat msg) (count_send w))
  else (Raise DeliveryError, count_send w).

(** Lines 26 to 33: whatever goes wrong inside the [try] becomes the
    error document. *)
Definition _get (endpoint : string) (r : response) : M json := λ w,
  (Ok match r with
      | Body j => j
      | _ => JObj [("error"%string, JStr "registry unreachable")]
      end,
   record (Fetched endpoint) w).

(** Lines 70 and 71. The right-hand side is evaluated before the key. *)
Definition track_alert (lab_id : json) (kind : string) : M unit :=
  let* ts := now in
  let* k := lift (Py.hashable lab_id) in
  λ w, (Ok tt, record (Tracked k kind ts) (store k kind ts w)).

(** Lines 74 to 76. *)
Definition should_alert (lab_id : json) (kind : string) : M bool :=
  let* k := lift (Py.hashable lab_id) in
  let* last := read (λ w, default 0 (_last_alert w !! (k, kind))) in
  let* t := now in
  ret (t - last >=? ALERT_COOLDOWN_SEC E).

(** A look of an iteration at [KNOWN_CHATS]: the set holds what the
    handler thread has added to it meanwhile. *)
Definition look : M (gset Z) := λ w,
  let w' := count_look (add_chats (arrivals E (looks w)) w) in
  (Ok (KNOWN_CHATS w'), w').

(** [for chat in KNOWN_CHATS: bot.sendMessage(chat, msg)], once the
    iterator is made: [used] is the size of the set at that moment and
    [rest] the items still to come. Each step of the iterator, the last
    one included, first compares the size of the set with [used]. *)
Fixpoint deliver (used : nat) (rest : list Z) (msg : message) {struct rest}
    : M unit :=
  let* K := look in
  if negb (size K =? used)%nat then lift (Raise RuntimeError)
  else match rest with
       | [] => ret tt
       | chat :: rest' =>
           let* _ := sendMessage chat msg in deliver used rest' msg
       end.

(** Lines 96 to 99 (and 101 to 104, 107 to 110, 112 to 115): the body
    of one [if] block: the message goes to every chat of the set, then
    the firing is written down. *)
Definition fire (c : check) (lab_id thr sid v : json) : M unit :=
  let* shown := lift (Py.get thr (kind c) JNull) in
  let msg := Message lab_id (quantity c) v (above c) shown sid in
  let* K := look in
  let* _ := deliver (size K) (iteration E K) msg in
  track_alert lab_id (kind c).

(** The right operand of the [and] of lines 95, 100, 106 and 111,
    followed by the body it guards. *)
Definition alert (c : check) (lab_id thr sid v : json) : M unit :=
  let* due := should_alert lab_id (kind c) in
  if due then fire c lab_id thr sid v else ret tt.

(** One [if] block of lines 95 to 115, for the check [c], on the value
    [v] of the reading: [and] evaluates its right operand only when the
    left one is true. *)
Definition check_bound (c : check) (lab_id thr sid v : json) : M unit :=
  let* beyond := lift (violates c thr v) in
  if beyond then alert c lab_id thr sid v else ret tt.

(** Lines 90 to 115: the body of the loop over the sensors of a lab. *)
Definition check_sensor (lab_id thr sensor : json) : M unit :=
  let* reading := lift (Py.get sensor "reading" JNull) in
  let rd := Py.or_ reading (JObj []) in
  let* sid := lift (Py.get sensor "sensor_id" JNull) in
  let* t := lift (Py.get rd "t" JNull) in
  let* h := lift (Py.get rd "h" JNull) in
  let* _ := (if Py.is_None t then ret tt
             else let* _ := check_bound t_high lab_id thr sid t in
                  check_bound t_low lab_id thr sid t) in
  if Py.is_None h then ret tt
  else let* _ := check_bound h_high lab_id thr sid h in
       check_bound h_low lab_id thr sid h.

(** Lines 87 to 115: the body of the loop over the labs. *)
Definition check_lab (lab : json) : M unit :=
  let* lab_id := lift (Py.get lab "lab_id" JNull) in
  let* thr := lift (Py.get lab "thresholds" (JObj [])) in
  let* sensors := lift (Py.get lab "sensors" (JArr [])) in
  let* sensors := lift (Py.iter sensors) in
  for_each sensors (check_sensor lab_id thr).

(** Lines 81 to 116: one turn of the [while True] loop, [r] being what
    the registry does if it is asked. *)
Definition poll_cycle (r : response) : M unit :=
  let* nobody := read (λ w, bool_decide (KNOWN_CHATS w = ∅)) in
  if nobody then sleep (ALERT_POLL_SEC E)
  else
    let* data := _get "status" r in
    let* labs := lift (Py.get data "labs" (JArr [])) in
    let* labs := lift (Py.iter labs) in
    let* _ := for_each labs check_lab in
    sleep (ALERT_POLL_SEC E).

(** Line 130 of [handle]: a chat that sends [/start] or [/help] joins
    the recipients. *)
Definition handle_start (chat_id : Z) : M unit := λ w,
  (Ok tt, add_chat chat_id w).

(** What happens around one turn of the loop: the chats that joined
    between the last iteration of the previous turn and the test of line
    81, and the registry's answer. *)
Record tick : Type := Tick {
  joined : list Z;
  answer : response
}.

(** Lines 79 to 116: the [while True] loop, run for as many turns as
    there are ticks. An exception ends the loop: nothing catches it. *)
Fixpoint poll_alerts (ticks : list tick) : M unit :=
  match ticks with
  | [] => ret tt
  | tk :: rest =>
      let* _ := for_each (joined tk) handle_start in
      let* _ := poll_cycle (answer tk) in
      poll_alerts rest
  end.

End Loop.

(** ** Reading the journal *)

(** The firings in a journal, newest first like the journal. *)
Definition tracked (l : list event) : list (Py.key * string * Z) :=
  omap (λ e, match e with Tracked k kd ts => Some (k, kd, ts) | _ => None end) l.

(** The firings written down so far, oldest first. *)
Definition firings (w : world) : list (Py.key * string * Z) :=
  reverse (tracked (journal w)).

Definition time_of (lab : Py.key) (kd : string) (f : Py.key * string * Z)
    : option Z :=
  if bool_decide (f.1 = (lab, kd)) then Some f.2 else None.

(** The timestamps written down for one (lab, kind) pair, oldest first. *)
Definition firing_times (lab : Py.key) (kd : string) (w : world) : list Z :=
  reverse (omap (time_of lab kd) (tracked (journal w))).

(** The messages that went out so far, oldest first. *)
Definition sent (l : list event) : list (Z * message) :=
  omap (λ e, match e with Sent chat m => Some (chat, m) | _ => None end) l.

Definition deliveries (w : world) : list (Z * message) :=
  reverse (sent (journal w)).


(** ** Words of the specification *)





(** ** Properties of a run *)

(** Every step of [m] takes a state to one related to it by [R]. *)
Definition respects (R : world → world → Prop) {A} (m : M A) : Prop :=
  ∀ w, R w (after m w).

(** The chats the handler thread adds at the looks from the [from]-th
    up to, and not including, the [upto]-th. *)
Definition arrived (E : env) (from upto : nat) : gset Z :=
  ⋃ (map (λ i, list_to_set (arrivals E i)) (seq from (upto - from))).

(** What a stretch of the loop may do to the two globals: the recipients
    are those of before and the chats the handler thread added
    meanwhile, and an entry of [_last_alert] changes only if the stretch
    wrote a firing of that very (lab, kind) pair in the journal. *)
Definition framed (E : env) (w w' : world) : Prop :=
  (looks w ≤ looks w')%nat ∧
  KNOWN_CHATS w' = KNOWN_CHATS w ∪ arrived E (looks w) (looks w') ∧
  ∃ new, journal w' = new ++ journal w ∧
    ∀ k kd, (∀ ts, (k, kd, ts) ∉ tracked new) →
      _last_alert w' !! (k, kd) = _last_alert w !! (k, kd).

(** The handler thread adds no chat: the loop runs undisturbed. *)
Definition undisturbed (E : env) : Prop := ∀ n, arrivals E n = [].

(** At the [count] looks from the [from]-th on, the handler thread has
    added no chat that is not in [K] already. *)
Definition calm (E : env) (K : gset Z) (from count : nat) : Prop :=
  ∀ i chat, (i < count)%nat → chat ∈ arrivals E (from + i) → chat ∈ K.

(** The clock never runs backwards. *)
Definition monotone (clock : nat → Z) : Prop :=
  ∀ i j, (i ≤ j)%nat → clock i ≤ clock j.

(** In a list of firings, newest first, every firing is at least
    [cooldown] later than each older firing of the same pair. *)
Fixpoint spaced (cooldown : Z) (l : list (Py.key * string * Z)) : Prop :=
  match l with
  | [] => True
  | (k, kd, b) :: older =>
      (∀ a, (k, kd, a) ∈ older → cooldown ≤ b - a) ∧ spaced cooldown older
  end.

(** The invariant of the loop: a pair that fired has an entry in
    [_last_alert] no older than any of its firings; no entry is ahead of
    the clock; the firings are spaced. *)
Definition cooled (E : env) (w : world) : Prop :=
  (∀ k kd ts, (k, kd, ts) ∈ tracked (journal w) →
     ∃ last, _last_alert w !! (k, kd) = Some last ∧ ts ≤ last) ∧
  (∀ key last, _last_alert w !! key = Some last →
     ∀ n, (clock_reads w ≤ n)%nat → last ≤ time_time E n) ∧
  spaced (ALERT_COOLDOWN_SEC E) (tracked (journal w)).

(** The relation a step keeps when it maintains the invariant. *)
Definition keeps (E : env) (w w' : world) : Prop := cooled E w → cooled E w'.

(** The pair [(k, kd)] is due: some clock reading already made is at least
    the cooldown past its entry, or past 0 if it has none. *)
Definition due (E : env) (k : Py.key) (kd : string) (w : world) : Prop :=
  ∃ n, (n < clock_reads w)%nat ∧
       ALERT_COOLDOWN_SEC E
       ≤ time_time E n - default 0 (_last_alert w !! (k, kd)).

Definition checks : list check := [t_high; t_low; h_high; h_low].

(** ** Sample data *)

Module Sample.

Local Open Scope string_scope.

Definition sensor (sid : string) (t h : json) : json :=
  JObj [("sensor_id", JStr sid); ("reading", JObj [("t", t); ("h", h)])].

Definition lab (lab_id : string) (thr : list (string * json))
    (sensors : list json) : json :=
  JObj [("lab_id", JStr lab_id); ("name", JStr "");
        ("thresholds", JObj thr); ("sensors", JArr sensors);
        ("actuators", JArr [])].

Definition status (labs : list json) : json := JObj [("labs", JArr labs)].

(** Lab "L1" with [t_high] 30 and one sensor reading 35 degrees. *)
Definition L1 : json :=
  lab "L1" [("t_high", JInt 30)] [sensor "s1" (JInt 35) JNull].

(** Lab "L2" with no threshold configured, reading 1000 and 1000. *)
Definition L2 : json :=
  lab "L2" [] [sensor "s1" (JInt 1000) (JInt 1000)].

(** Lab "L3" with two sensors over the same [t_high]. *)
Definition L3 : json :=
  lab "L3" [("t_high", JInt 30)]
    [sensor "s1" (JInt 35) JNull; sensor "s2" (JInt 36) JNull].

(** The order of a set of small integers that stays in its first table
    of eight slots, none of which is shared: the items by their
    remainder modulo 8. [by_slot l] is the position in [l] of the item
    of the least remainder. *)
Fixpoint by_slot (l : list Z) : nat :=
  match l with
  | [] => 0%nat
  | x :: l' =>
      match l' with
      | [] => 0%nat
      | _ => let i := by_slot l' in
             if (x mod 8 <? nth i l' 0 mod 8)%Z then 0%nat else S i
      end
  end.

(** Poll every 30 s, cooldown 300 s, a clock that reads [t0] for the
    first time and one second more at each later reading, a chat
    service that always delivers, and a handler thread that adds no
    chat. *)
Definition E0 (t0 : Z) : env :=
  Env 30 300 (λ n, t0 + Z.of_nat n) (λ _, true) (λ _, by_slot) (λ _, []).

Definition T0 : Z := 1700000000.

(** One known chat, nothing fired yet. *)
Definition one_chat : world :=
  {| KNOWN_CHATS := {[ 7 ]}; _last_alert := ∅;
     clock_reads := 0; send_calls := 0; looks := 0; journal := [] |}.

(** Two known chats, nothing fired yet. *)
Definition two_chats : world :=
  {| KNOWN_CHATS := {[ 7; 8 ]}; _last_alert := ∅;
     clock_reads := 0; send_calls := 0; looks := 0; journal := [] |}.

(** As [E0 T0], but the first delivery of the chat service raises. *)
Definition flaky : env :=
  Env 30 300 (λ n, T0 + Z.of_nat n) (λ n, negb (n =? 0)%nat)
      (λ _, by_slot) (λ _, []).

(** A clock that reads [T0] twice, then [T0 + 10], then [T0 + 301]. *)
Definition scenario_clock (n : nat) : Z :=
  match n with
  | 0%nat | 1%nat => T0
  | 2%nat => T0 + 10
  | _ => T0 + 301
  end.

Definition scenario : env :=
  Env 30 300 scenario_clock (λ _, true) (λ _, by_slot) (λ _, []).

(** As [E0 T0], but the clock is set back by a second after its third
    reading: it reads [T0], [T0], [T0 + 300], then [T0 + 299]. *)
Definition set_back : env :=
  Env 30 300
      (λ n, match n with
            | 0%nat | 1%nat => T0
            | 2%nat => T0 + 300
            | _ => T0 + 299
            end)
      (λ _, true) (λ _, by_slot) (λ _, []).


(** As [E0 T0], but with a cooldown of one second. *)
Definition brief : env :=
  Env 30 1 (λ n, T0 + Z.of_nat n) (λ _, true) (λ _, by_slot) (λ _, []).

(** As [E0 T0], but the handler thread adds [chat] to the recipients
    just before the [n]-th look of an iteration at the set. *)
Definition joining (n : nat) (chat : Z) : env :=
  Env 30 300 (λ n, T0 + Z.of_nat n) (λ _, true) (λ _, by_slot)
      (λ i, if (i =? n)%nat then [chat] else []).

(** Chat 7 joins, then the registry reports the same state of lab "L1"
    at three polls. *)
Definition three_polls : list tick :=
  [Tick [7] (Body (status [L1])); Tick [] (Body (status [L1]));
   Tick [] (Body (status [L1]))].

(** The state once "L1" has fired temperature-high at [T0]. *)
Definition fired_at_T0 : world :=
  {| KNOWN_CHATS := {[ 7 ]};
     _last_alert := {[ (Py.KStr "L1", "t_high") := T0 ]};
     clock_reads := 2; send_calls := 1; looks := 2;
     journal := [Tracked (Py.KStr "L1") "t_high" T0] |}.

End Sample.

(** ** What a run keeps besides the cooldown *)

(** [_last_alert] mirrors the journal: the entry of a pair is the
    timestamp of the newest firing of the pair, and a pair without firing
    has no entry. *)
Definition mirrors (w : world) : Prop :=
  ∀ k kd, _last_alert w !! (k, kd)
          = head (omap (time_of k kd) (tracked (journal w))).

Definition mirrored (w w' : world) : Prop := mirrors w → mirrors w'.

(** The number of messages a stretch of the journal sent to one chat. *)
Definition deliveries_to (chat : Z) (l : list (Z * message)) : nat :=
  length (filter (λ d, d.1 = chat) l).

(** A stretch of the loop loses no recipient and sends to recipients
    only. *)
Definition addressed (w w' : world) : Prop :=
  KNOWN_CHATS w ⊆ KNOWN_CHATS w' ∧
  ∃ new, journal w' = new ++ journal w ∧
    ∀ chat m, (chat, m) ∈ sent new → chat ∈ KNOWN_CHATS w'.

(** A stretch of the loop loses no recipient and writes down no firing
    of which a chat that was a recipient from the start has not been
    sent the message. *)
Definition heard (w w' : world) : Prop :=
  KNOWN_CHATS w ⊆ KNOWN_CHATS w' ∧
  ∃ new, journal w' = new ++ journal w ∧
    ∀ chat, chat ∈ KNOWN_CHATS w →
      (length (tracked new) ≤ deliveries_to chat (sent new))%nat.

(** A stretch of the loop leaves the recipients as they are and sends
    each of them one message for each firing it writes down. *)
Definition announced (w w' : world) : Prop :=
  KNOWN_CHATS w' = KNOWN_CHATS w ∧
  ∃ new, journal w' = new ++ journal w ∧
    ∀ chat, chat ∈ KNOWN_CHATS w →
      deliveries_to chat (sent new) = length (tracked new).

(** The four alert kinds. *)
Definition kinds : list string := map kind checks.

(** The comparison an alert message prints, [value > bound] or
    [value < bound], holds of the values it prints; where it prints [None]
    for the bound, the value is beyond 999, or below -999. *)
Definition truthful (m : message) : Prop :=
  let b := if Py.is_None (msg_bound m)
           then JInt (if msg_above m then 999 else -999)
           else msg_bound m in
  (if msg_above m then Py.gt (msg_value m) b else Py.lt (msg_value m) b)
  = Ok true.

(** A stretch of the loop writes firings of the four kinds only and sends
    truthful messages only. *)
Definition vetted (w w' : world) : Prop :=
  ∃ new, journal w' = new ++ journal w ∧
    (∀ k kd ts, (k, kd, ts) ∈ tracked new → kd ∈ kinds) ∧
    (∀ chat m, (chat, m) ∈ sent new → truthful m).

(** No entry of [_last_alert] is ahead of the clock. *)
Definition on_time (E : env) (w : world) : Prop :=
  ∀ key last, _last_alert w !! key = Some last →
    ∀ n, (clock_reads w ≤ n)%nat → last ≤ time_time E n.

(** A stretch of the loop consumes clock readings and, started with no
    entry ahead of the clock, ends so, with every entry kept or moved
    forward. *)
Definition advancing (E : env) (w w' : world) : Prop :=
  (clock_reads w ≤ clock_reads w')%nat ∧
  (on_time E w →
   on_time E w' ∧
   ∀ key a, _last_alert w !! key = Some a →
     ∃ b, _last_alert w' !! key = Some b ∧ a ≤ b).

(** ** The command handler *)

(** The rest of [telegram_bot.py]: [_post], [fmt_status] and [handle].
    The handler shares the two globals and the bot with the alert loop;
    what it sends and what it asks of the registry is kept beside them. *)

(** The functions of the Python library whose results the handler only
    passes on: [repr] is [str(x)] for a number, a list or a dictionary
    (for a string, [None] and the booleans [py_str] below is exact);
    [strip] is [s.strip()]; [shlex_split] is [shlex.split(s)], which
    raises [ValueError] on an unbalanced quote. *)
Record builtins : Type := Builtins {
  repr : json → string;
  strip : string → string;
  shlex_split : string → result (list string)
}.

(** [handle] also meets [KeyError]. *)
Inductive fault : Type :=
| Python (e : exn)
| KeyError.

Inductive attempt (A : Type) : Type :=
| Fine (a : A)
| Failed (f : fault).
Arguments Fine {A} a.
Arguments Failed {A} f.

(** What the registry does with one request: it cannot be reached, or it
    answers with a success or an error status and a body that is JSON or
    not. *)
Inductive http_result : Type :=
| NoConnection
| Responded (success : bool) (body : option json).

Inductive request : Type :=
| GET (url : string)
| POST (url : string) (payload : json)
| DELETE (url : string).

(** The base URL read at import (line 17) and the registry:
    [registry n] is its answer to the [n]-th request of the handler. *)
Record service : Type := Service {
  REGISTRY_API : string;
  registry : nat → http_result
}.

(** The message as [telepot.glance] and [msg["text"]] read it. *)
Record incoming : Type := Incoming {
  content_type : string;
  chat_id : Z;
  text : string
}.

(** The shared state, the requests made and the texts sent, newest
    first. *)
Record desk : Type := Desk {
  globals : world;
  wire : list request;
  outbox : list (Z * string)
}.

Definition H (A : Type) : Type := desk → attempt A * desk.

Definition hret {A} (a : A) : H A := λ d, (Fine a, d).

Definition hbind {A B} (m : H A) (k : A → H B) : H B := λ d,
  match m d with
  | (Fine a, d') => k a d'
  | (Failed f, d') => (Failed f, d')
  end.

Notation "'let+' x ':=' m 'in' k" := (hbind m (λ x, k))
  (at level 10, x pattern, m at level 100, k at level 200).

Definition of_result {A} (r : result A) : H A := λ d,
  (match r with Ok a => Fine a | Raise e => Failed (Python e) end, d).

Definition of_attempt {A} (r : attempt A) : H A := λ d, (r, d).

(** A step of the alert loop's monad, run on the shared state. *)
Definition on_globals {A} (m : M A) : H A := λ d,
  match m (globals d) with
  | (Ok a, w) => (Fine a, Desk w (wire d) (outbox d))
  | (Raise e, w) => (Failed (Python e), Desk w (wire d) (outbox d))
  end.

Definition houtcome {A} (m : H A) (d : desk) : attempt A := (m d).1.
Definition hafter {A} (m : H A) (d : desk) : desk := (m d).2.

(** Sequencing of fallible pure steps. *)
Definition rbind {A B} (r : result A) (k : A → result B) : result B :=
  match r with Ok a => k a | Raise e => Raise e end.

Notation "'let?' x ':=' r 'in' k" := (rbind r (λ x, k))
  (at level 10, x pattern, r at level 100, k at level 200).

Fixpoint rmap {A B} (f : A → result B) (xs : list A) : result (list B) :=
  match xs with
  | [] => Ok []
  | x :: xs' => let? y := f x in let? ys := rmap f xs' in Ok (y :: ys)
  end.

Fixpoint amap {A B} (f : A → attempt B) (xs : list A) : attempt (list B) :=
  match xs with
  | [] => Fine []
  | x :: xs' =>
      match f x with
      | Fine y => match amap f xs' with
                  | Fine ys => Fine (y :: ys)
                  | Failed e => Failed e
                  end
      | Failed e => Failed e
      end
  end.

Fixpoint rfilter {A} (f : A → result bool) (xs : list A) : result (list A) :=
  match xs with
  | [] => Ok []
  | x :: xs' =>
      let? keep := f x in
      let? rest := rfilter f xs' in
      Ok (if keep then x :: rest else rest)
  end.

Module Bot.

Local Open Scope string_scope.

Definition nl : string := String (ascii_of_nat 10) EmptyString.
Definition dq : string := String (ascii_of_nat 34) EmptyString.

(** [s.lower()], on the ASCII letters. The handler only compares the
    result with ASCII command names, none of which has a [k]: a word with
    a character outside ASCII equals none of them before or after
    [lower()], whose only non-ASCII preimage of an ASCII letter is the
    Kelvin sign. *)
Definition lower_ascii (c : ascii) : ascii :=
  let n := nat_of_ascii c in
  if (65 <=? n)%nat && (n <=? 90)%nat then ascii_of_nat (n + 32) else c.

Fixpoint lower (s : string) : string :=
  match s with
  | EmptyString => EmptyString
  | String c s' => String (lower_ascii c) (lower s')
  end.

(** [s.lstrip('/')] and [s.rstrip('/')] *)
Fixpoint lstrip_slash (s : string) : string :=
  match s with
  | String "/" s' => lstrip_slash s'
  | _ => s
  end.

Fixpoint rstrip_slash (s : string) : string :=
  match s with
  | EmptyString => EmptyString
  | String c s' =>
      match rstrip_slash s' with
      | EmptyString => if Ascii.eqb c "/" then EmptyString else String c EmptyString
      | rest => String c rest
      end
  end.

(** [o[k]] for a string [k]: a dictionary without the key raises
    [KeyError], anything else is not subscriptable by a string. *)
Definition item (o : json) (k : string) : attempt json :=
  match o with
  | JObj kvs => match Py.assoc k kvs with
                | Some v => Fine v
                | None => Failed KeyError
                end
  | _ => Failed (Python TypeError)
  end.

(** The document [_get] and [_post] return when the request fails. *)
Definition unreachable : json :=
  JObj [("error", JStr "registry unreachable")].

(** What [raise_for_status()] and [r.json()] make of an answer. *)
Definition checked (a : http_result) : response :=
  match a with
  | NoConnection => Unreachable
  | Responded false _ => BadStatus
  | Responded true None => NotJson
  | Responded true (Some j) => Body j
  end.

(** The [try] blocks of lines 206 to 210, 226 to 230 and 246 to 250:
    [r.json()] without [raise_for_status()]. *)
Definition unchecked (a : http_result) : json :=
  match a with
  | Responded _ (Some j) => j
  | _ => unreachable
  end.

Section Handler.

Variable P : builtins.
Variable S : service.
Variable E : env.

(** [str(x)], as an f-string formats a value. *)
Definition py_str (x : json) : string :=
  match x with
  | JStr s => s
  | JNull => "None"
  | JBool true => "True"
  | JBool false => "False"
  | _ => repr P x
  end.

(** [f"{REGISTRY_API.rstrip('/')}/{endpoint.lstrip('/')}"] *)
Definition url (endpoint : string) : string :=
  rstrip_slash (REGISTRY_API S) +:+ "/" +:+ lstrip_slash endpoint.

(** A request goes out and the registry answers. *)
Definition ask (q : request) : H http_result := λ d,
  (Fine (registry S (length (wire d))),
   Desk (globals d) (q :: wire d) (outbox d)).

(** [_get(endpoint)], as the handler calls it. *)
Definition fetch (endpoint : string) : H json :=
  let+ a := ask (GET (url endpoint)) in
  on_globals (_get endpoint (checked a)).

(** Lines 36 to 43. *)
Definition _post (endpoint : string) (payload : json) : H json :=
  let+ a := ask (POST (url endpoint) payload) in
  hret match checked a with
       | Body j => j
       | _ => unreachable
       end.

(** [requests.delete(f"{REGISTRY_API.rstrip('/')}{path}", timeout=5)] and
    [r.json()] in their [try] block. *)
Definition delete (path : string) : H json :=
  let+ a := ask (DELETE (rstrip_slash (REGISTRY_API S) +:+ path)) in
  hret (unchecked a).

(** [bot.sendMessage(chat_id, text)], on the bot of the alert loop. *)
Definition reply (chat : Z) (t : string) : H unit := λ d,
  if sendMessage_returns E (send_calls (globals d))
  then (Fine tt, Desk (count_send (globals d)) (wire d) ((chat, t) :: outbox d))
  else (Failed (Python DeliveryError),
        Desk (count_send (globals d)) (wire d) (outbox d)).

(** ["OK" if res.get("ok") else f"Error: {res.get('error','unknown')}"] *)
Definition verdict (res : json) : result string :=
  let? ok := Py.get res "ok" JNull in
  if Py.truthy ok then Ok "OK"
  else let? why := Py.get res "error" (JStr "unknown") in
       Ok ("Error: " +:+ py_str why).

(** Lines 60 to 62. *)
Definition sensor_line (s : json) : result string :=
  let? reading := Py.get s "reading" JNull in
  let rd := Py.or_ reading (JObj []) in
  let? sid := Py.get s "sensor_id" JNull in
  let? t := Py.get rd "t" (JStr "?") in
  let? h := Py.get rd "h" (JStr "?") in
  let? ts := Py.get rd "ts" (JStr "?") in
  Ok ("   - " +:+ py_str sid +:+ " t=" +:+ py_str t +:+ " h=" +:+ py_str h
      +:+ " ts=" +:+ py_str ts).

(** Lines 63 to 65. *)
Definition actuator_line (a : json) : result string :=
  let? state := Py.get a "state" JNull in
  let st := Py.or_ state (JObj []) in
  let? aid := Py.get a "actuator_id" JNull in
  let? ty := Py.get a "type" (JStr "") in
  let? s := Py.get st "state" (JStr "?") in
  let? ts := Py.get st "ts" (JStr "?") in
  Ok ("   - " +:+ py_str aid +:+ " " +:+ py_str ty +:+ " state=" +:+ py_str s
      +:+ " ts=" +:+ py_str ts).

(** Lines 52 to 66: the lines of one lab. *)
Definition lab_lines (lab : json) : result (list string) :=
  let? lab_id := Py.get lab "lab_id" JNull in
  let? name := Py.get lab "name" (JStr "") in
  let? thr := Py.get lab "thresholds" (JObj []) in
  let? t_low := Py.get thr "t_low" (JStr "?") in
  let? t_high := Py.get thr "t_high" (JStr "?") in
  let? h_low := Py.get thr "h_low" (JStr "?") in
  let? h_high := Py.get thr "h_high" (JStr "?") in
  let? seen := Py.get lab "last_sensor_seen" (JStr "never") in
  let? alerts := Py.get lab "alerts" (JObj []) in
  let? offline := Py.get alerts "sensor_offline" JNull in
  let? sensors := Py.get lab "sensors" (JArr []) in
  let? sensors := Py.iter sensors in
  let? sensor_lines := rmap sensor_line sensors in
  let? actuators := Py.get lab "actuators" (JArr []) in
  let? actuators := Py.iter actuators in
  let? actuator_lines := rmap actuator_line actuators in
  Ok ([py_str lab_id +:+ " (" +:+ py_str name +:+ ")";
       "  Thr temp " +:+ py_str t_low +:+ ".." +:+ py_str t_high +:+ " hum "
         +:+ py_str h_low +:+ ".." +:+ py_str h_high;
       "  Last sensor: " +:+ py_str seen]
      ++ (if Py.truthy offline then ["  ALERT: sensor offline"] else [])
      ++ sensor_lines ++ actuator_lines ++ [""])%list.

(** Lines 46 to 67. *)
Definition fmt_status (data : json) : result string :=
  let? labs := Py.get data "labs" (JArr []) in
  if negb (Py.truthy labs) then Ok "No labs registered."
  else let? labs := Py.iter labs in
       let? blocks := rmap lab_lines labs in
       Ok (strip P (String.concat nl (concat blocks))).

(** The text of lines 133 to 145. *)
Definition help_text : string :=
  "Commands:" +:+ nl +:+
  "/status" +:+ nl +:+
  "/list_labs" +:+ nl +:+
  "/turn_on <lab> <actuator>" +:+ nl +:+
  "/turn_off <lab> <actuator>" +:+ nl +:+
  "/turn_on_all <lab>" +:+ nl +:+
  "/turn_off_all <lab>" +:+ nl +:+
  "/add_lab <lab> " +:+ dq +:+ "name" +:+ dq +:+ " [notes]" +:+ nl +:+
  "/remove_lab <lab>" +:+ nl +:+
  "/add_sensor <lab> <sensor_id> <type>" +:+ nl +:+
  "/remove_sensor <sensor_id>" +:+ nl +:+
  "/add_actuator <lab> <actuator_id> <type>" +:+ nl +:+
  "/remove_actuator <actuator_id>" +:+ nl.

(** The item of line 159: [f"- {l['lab_id']} ({l.get('name','')})"]. *)
Definition lab_item (l : json) : attempt string :=
  match item l "lab_id" with
  | Fine lab_id =>
      match Py.get l "name" (JStr "") with
      | Ok name => Fine ("- " +:+ py_str lab_id +:+ " (" +:+ py_str name +:+ ")")
      | Raise e => Failed (Python e)
      end
  | Failed f => Failed f
  end.

(** The payload of lines 167 and 185. *)
Definition command (lab_id : string) (actuator_id : json) (action : string)
    : json :=
  JObj [("lab_id", JStr lab_id); ("actuator_id", actuator_id);
        ("action", JStr action); ("source", JStr "bot")].

(** Lines 184 to 188: one command per actuator; the failures are
    collected. *)
Fixpoint turn_all (lab_id action : string) (acts : list json)
    : H (list string) :=
  match acts with
  | [] => hret []
  | act :: rest =>
      let+ aid := of_result (Py.get act "actuator_id" JNull) in
      let+ res := _post "command" (command lab_id aid action) in
      let+ ok := of_result (Py.get res "ok" JNull) in
      let+ failed :=
        (if Py.truthy ok then hret []
         else let+ why := of_result (Py.get res "error" (JStr "unknown")) in
              hret [py_str aid +:+ ": " +:+ py_str why]) in
      let+ more := turn_all lab_id action rest in
      hret (failed ++ more)%list
  end.

(** Line 179: [[l for l in labs if l.get("lab_id") == lab_id]] *)
Definition labs_named (lab_id : string) (labs : list json) : result (list json) :=
  rfilter (λ l, let? id := Py.get l "lab_id" JNull in
                Ok (Py.eq id (JStr lab_id))) labs.

(** [bot.sendMessage(chat_id, "OK" if res.get("ok") else ...)] *)
Definition report (chat : Z) (res : json) : H unit :=
  let+ t := of_result (verdict res) in
  reply chat t.

(** Lines 125 to 254: the handler, once the text is split in [parts]. *)
Definition dispatch (chat : Z) (parts : list string) : H unit :=
  match parts with
  | [] => hret tt
  | first :: _ =>
    let cmd := lower first in
    let arg := λ i, nth i parts "" in
    if bool_decide (cmd ∈ ["/start"; "/help"]) then
      let+ _ := on_globals (handle_start chat) in
      reply chat help_text
    else if String.eqb cmd "/status" then
      let+ data := fetch "status" in
      let+ t := of_result (fmt_status data) in
      reply chat t
    else if String.eqb cmd "/list_labs" then
      let+ data := fetch "labs" in
      let+ labs := of_result (Py.get data "labs" (JArr [])) in
      if negb (Py.truthy labs) then reply chat "No labs."
      else let+ labs := of_result (Py.iter labs) in
           let+ items := of_attempt (amap lab_item labs) in
           reply chat (String.concat nl items)
    else if bool_decide (cmd ∈ ["/turn_on"; "/turn_off"]) then
      if negb (length parts =? 3)%nat
      then reply chat ("Usage: " +:+ cmd +:+ " <lab> <actuator>")
      else
        let action := if String.eqb cmd "/turn_on" then "ON" else "OFF" in
        let+ res := _post "command" (command (arg 1%nat) (JStr (arg 2%nat)) action) in
        report chat res
    else if bool_decide (cmd ∈ ["/turn_on_all"; "/turn_off_all"]) then
      if negb (length parts =? 2)%nat
      then reply chat ("Usage: " +:+ cmd +:+ " <lab>")
      else
        let lab_id := arg 1%nat in
        let action := if String.eqb cmd "/turn_on_all" then "ON" else "OFF" in
        let+ status := fetch "status" in
        let+ all := of_result (Py.get status "labs" (JArr [])) in
        let+ all := of_result (Py.iter all) in
        let+ labs := of_result (labs_named lab_id all) in
        match labs with
        | [] => reply chat "Lab not found."
        | lab :: _ =>
            let+ acts := of_result (Py.get lab "actuators" (JArr [])) in
            let+ acts := of_result (Py.iter acts) in
            let+ errors := turn_all lab_id action acts in
            reply chat match errors with
                       | [] => "Done."
                       | _ => String.concat nl errors
                       end
        end
    else if String.eqb cmd "/add_lab" then
      if (length parts <? 3)%nat
      then reply chat ("Usage: /add_lab <lab_id> " +:+ dq +:+ "<name>" +:+ dq
                       +:+ " [notes]")
      else
        let notes := if (3 <? length parts)%nat
                     then String.concat " " (drop 3 parts) else "" in
        let+ res := _post "labs"
          (JObj [("lab_id", JStr (arg 1%nat)); ("name", JStr (arg 2%nat));
                 ("notes", JStr notes)]) in
        report chat res
    else if String.eqb cmd "/remove_lab" then
      if negb (length parts =? 2)%nat
      then reply chat "Usage: /remove_lab <lab_id>"
      else let+ res := delete ("/lab/" +:+ arg 1%nat) in report chat res
    else if String.eqb cmd "/add_sensor" then
      if negb (length parts =? 4)%nat
      then reply chat "Usage: /add_sensor <lab_id> <sensor_id> <type>"
      else
        let+ res := _post "sensors"
          (JObj [("lab_id", JStr (arg 1%nat)); ("sensor_id", JStr (arg 2%nat));
                 ("type", JStr (arg 3%nat))]) in
        report chat res
    else if String.eqb cmd "/remove_sensor" then
      if negb (length parts =? 2)%nat
      then reply chat "Usage: /remove_sensor <sensor_id>"
      else let+ res := delete ("/sensor/" +:+ arg 1%nat) in report chat res
    else if String.eqb cmd "/add_actuator" then
      if negb (length parts =? 4)%nat
      then reply chat "Usage: /add_actuator <lab_id> <actuator_id> <type>"
      else
        let+ res := _post "actuators"
          (JObj [("lab_id", JStr (arg 1%nat)); ("actuator_id", JStr (arg 2%nat));
                 ("type", JStr (arg 3%nat))]) in
        report chat res
    else if String.eqb cmd "/remove_actuator" then
      if negb (length parts =? 2)%nat
      then reply chat "Usage: /remove_actuator <actuator_id>"
      else let+ res := delete ("/actuator/" +:+ arg 1%nat) in report chat res
    else reply chat "Unknown command. Use /help"
  end.

(** Lines 119 to 254. *)
Definition handle (msg : incoming) : H unit :=
  if negb (String.eqb (content_type msg) "text") then hret tt
  else
    let+ parts := of_result (shlex_split P (strip P (text msg))) in
    dispatch (chat_id msg) parts.

End Handler.

End Bot.

(** ** Sample data for the handler *)

Module Chat.

Import Sample.
Local Open Scope string_scope.

(** Splitting at spaces, which is what [shlex.split] does to words
    without quotes, escapes or other white space. *)
Fixpoint words_from (word : string) (s : string) : list string :=
  match s with
  | EmptyString => match word with EmptyString => [] | _ => [word] end
  | String " " s' =>
      match word with
      | EmptyString => words_from EmptyString s'
      | _ => word :: words_from EmptyString s'
      end
  | String c s' => words_from (word +:+ String c EmptyString) s'
  end.

(** Stand-ins for the library: every number, list and dictionary prints
    as [#], nothing is stripped, words are split at spaces. *)
Definition plain : builtins :=
  Builtins (λ _, "#") (λ s, s) (λ s, Ok (words_from EmptyString s)).

(** A registry that cannot be reached. *)
Definition down : service := Service "http://localhost:8080" (λ _, NoConnection).

(** A registry that refuses every request with an error status and says
    why in the body. *)
Definition refusing : service :=
  Service "http://localhost:8080/"
    (λ _, Responded false
            (Some (JObj [("ok", JBool false); ("error", JStr "lab exists")]))).

(** A registry that reports lab "L3" with two actuators, then accepts
    every command. *)
Definition L3_actuators : json :=
  JObj [("lab_id", JStr "L3");
        ("actuators", JArr [JObj [("actuator_id", JStr "fan")];
                            JObj [("actuator_id", JStr "heater")]])].

Definition obliging : service :=
  Service "http://localhost:8080"
    (λ n, match n with
          | 0%nat => Responded true (Some (status [L3_actuators]))
          | _ => Responded true (Some (JObj [("ok", JBool true)]))
          end).

(** A registry whose list of labs has an entry without [lab_id]. *)
Definition nameless : service :=
  Service "http://localhost:8080"
    (λ _, Responded true
            (Some (status [JObj [("lab_id", JStr "L1")];
                           JObj [("name", JStr "annex")]]))).

Definition fresh : desk := Desk boot [] [].

Definition said (chat : Z) (t : string) : incoming := Incoming "text" chat t.

End Chat.

(** ** What the handler leaves alone *)

Definition hrespects (R : desk → desk → Prop) {A} (m : H A) : Prop :=
  ∀ d, R d (hafter m d).

(** A step of the handler that leaves the state of the alert loop as it
    is: the cooldown entries, the recipients, the clock, the firings and
    the alerts sent. *)
Definition untouched (d d' : desk) : Prop :=
  _last_alert (globals d') = _last_alert (globals d) ∧
  KNOWN_CHATS (globals d') = KNOWN_CHATS (globals d) ∧
  clock_reads (globals d') = clock_reads (globals d) ∧
  tracked (journal (globals d')) = tracked (journal (globals d)) ∧
  sent (journal (globals d')) = sent (journal (globals d)).

(** Such a step that also sends nothing. *)
Definition quiet (d d' : desk) : Prop :=
  untouched d d' ∧ outbox d' = outbox d.

(** Such a step that sends at most one text, to [chat]. *)
Definition answered (chat : Z) (d d' : desk) : Prop :=
  untouched d d' ∧
  ∃ new, outbox d' = new ++ outbox d ∧ (length new ≤ 1)%nat ∧
         ∀ c t, (c, t) ∈ new → c = chat.

(** The message is a text whose first word is [/start] or [/help], in
    any case of the letters. *)
Definition greets (P : builtins) (msg : incoming) : Prop :=
  content_type msg = "text"%string ∧
  ∃ first rest, shlex_split P (strip P (text msg)) = Ok (first :: rest) ∧
                Bot.lower first ∈ ["/start"; "/help"]%string.

(** The command names the handler knows. *)
Definition commands : list string :=
  ["/start"; "/help"; "/status"; "/list_labs"; "/turn_on"; "/turn_off";
   "/turn_on_all"; "/turn_off_all"; "/add_lab"; "/remove_lab"; "/add_sensor";
   "/remove_sensor"; "/add_actuator"; "/remove_actuator"]%string.

(** The shape of a status document that [fmt_status] reads: an object
    whose "labs", if any, is a list of objects; in a lab "thresholds" and
    "alerts", if any, are objects, and "sensors" and "actuators", if any,
    are lists of objects whose "reading", or "state", is an object or
    something false ([None], an empty object). Every field may be
    missing. *)
Definition absent_or (ok : json → Prop) (kvs : list (string * json))
    (k : string) : Prop :=
  match Py.assoc k kvs with Some v => ok v | None => True end.

Definition is_dict (x : json) : Prop := ∃ kvs, x = JObj kvs.

Definition falsy_or_dict (x : json) : Prop := Py.truthy x = false ∨ is_dict x.

Definition entry_ok (inner : string) (x : json) : Prop :=
  ∃ kvs, x = JObj kvs ∧ absent_or falsy_or_dict kvs inner.

Definition list_of (ok : json → Prop) (x : json) : Prop :=
  ∃ xs, x = JArr xs ∧ Forall ok xs.

Definition lab_ok (lab : json) : Prop :=
  ∃ kvs, lab = JObj kvs ∧
    absent_or is_dict kvs "thresholds" ∧
    absent_or is_dict kvs "alerts" ∧
    absent_or (list_of (entry_ok "reading")) kvs "sensors" ∧
    absent_or (list_of (entry_ok "state")) kvs "actuators".

Definition status_ok (data : json) : Prop :=
  ∃ kvs, data = JObj kvs ∧ absent_or (list_of lab_ok) kvs "labs".

(** ** The operator bridge *)

(** [operator_bridge.py]: the class [OperatorBridge]. A string is the
    sequence of its UTF-8 bytes, which is what [urllib.parse.quote] works
    on. [json.loads] is taken from the library: [loads s] is the value of
    [json.loads(s)], or [None] where it raises. *)

Module Bridge.

Local Open Scope string_scope.

(** The characters [quote] never escapes: letters, digits and [_.-~]. *)
Definition always_safe (c : ascii) : bool :=
  let n := nat_of_ascii c in
  ((65 <=? n) && (n <=? 90) || (97 <=? n) && (n <=? 122)
   || (48 <=? n) && (n <=? 57)
   || (n =? 95) || (n =? 46) || (n =? 45) || (n =? 126))%nat.

Definition hex_digit (n : nat) : ascii :=
  ascii_of_nat (if (n <? 10)%nat then 48 + n else 55 + n).

(** ['%{:02X}'.format(byte)] *)
Definition escape (c : ascii) : string :=
  let n := nat_of_ascii c in
  String "%" (String (hex_digit (n / 16)) (String (hex_digit (n mod 16)) "")).

(** [urllib.parse.quote(s)], with its default [safe='/']. *)
Fixpoint quote (s : string) : string :=
  match s with
  | EmptyString => EmptyString
  | String c s' =>
      (if always_safe c || Ascii.eqb c "/" then String c "" else escape c)
      +:+ quote s'
  end.

(** What [urlopen], [read] and [decode] come to: an answer with a
    success status, an [HTTPError] or another [URLError]; [body] is
    [None] where the bytes are not UTF-8. [reason] is [exc.reason], for a
    [URLError] as [str] prints it. *)
Inductive exchange : Type :=
| Success (body : option string)
| HttpError (reason : string) (body : option string)
| UrlError (reason : string).

(** [_request] returns a document or lets an exception through. *)
Inductive ending : Type :=
| Returns (j : json)
| Propagates.

(** One request as the methods put it together. *)
Record call : Type := Call {
  verb : string;
  path : string;
  payload : option json
}.

Section Requests.

Variable loads : string → option json.

(** Lines 31 to 44 of [_request]. *)
Definition _request (x : exchange) : ending :=
  match x with
  | Success body =>
      match body with
      | Some text =>
          match loads (if String.eqb text "" then "{}" else text) with
          | Some j => Returns j
          | None => Propagates
          end
      | None => Propagates
      end
  | HttpError reason body =>
      match body with
      | Some text =>
          match loads text with
          | Some j => Returns j
          | None => Returns (JObj [("error", JStr reason)])
          end
      | None => Returns (JObj [("error", JStr reason)])
      end
  | UrlError reason => Returns (JObj [("error", JStr reason)])
  end.

End Requests.

(** Lines 71 to 106: the requests of the methods that put an identifier
    in the path. *)
Definition update_lab (lab_id : string) (fields : list (string * json)) : call :=
  Call "PUT" ("/lab/" +:+ quote lab_id) (Some (JObj fields)).

Definition remove_lab (lab_id : string) : call :=
  Call "DELETE" ("/lab/" +:+ quote lab_id) None.

Definition update_sensor (sensor_id : string) (fields : list (string * json))
    : call :=
  Call "PUT" ("/sensor/" +:+ quote sensor_id) (Some (JObj fields)).

Definition remove_sensor (sensor_id : string) : call :=
  Call "DELETE" ("/sensor/" +:+ quote sensor_id) None.

Definition update_actuator (actuator_id : string)
    (fields : list (string * json)) : call :=
  Call "PUT" ("/actuator/" +:+ quote actuator_id) (Some (JObj fields)).

Definition remove_actuator (actuator_id : string) : call :=
  Call "DELETE" ("/actuator/" +:+ quote actuator_id) None.

Definition update_threshold (lab_id : string) (values : list (string * json))
    : call :=
  Call "PUT" ("/threshold/" +:+ quote lab_id) (Some (JObj values)).

(** Percent-decoding, to read a quoted string back. *)
Definition hex_value (c : ascii) : nat :=
  let n := nat_of_ascii c in
  if (n <? 58)%nat then n - 48 else n - 55.

Fixpoint unquote (s : string) : string :=
  match s with
  | EmptyString => EmptyString
  | String c s' =>
      if Ascii.eqb c "%" then
        match s' with
        | String a (String b s'') =>
            String (ascii_of_nat (16 * hex_value a + hex_value b)) (unquote s'')
        | _ => String c (unquote s')
        end
      else String c (unquote s')
  end.

(** The characters of a quoted string. *)
Definition quoted_char (c : ascii) : bool :=
  always_safe c || Ascii.eqb c "/" || Ascii.eqb c "%".

Fixpoint all_chars (p : ascii → bool) (s : string) : bool :=
  match s with
  | EmptyString => true
  | String c s' => p c && all_chars p s'
  end.

End Bridge.

(** ** The monad's equations *)

Lemma bind_ok {A B} (m : M A) (k : A → M B) w a w' :
  m w = (Ok a, w') → bind m k w = k a w'.
Proof. unfold bind. intros ->. reflexivity. Qed.

Lemma bind_raise {A B} (m : M A) (k : A → M B) w e w' :
  m w = (Raise e, w') → bind m k w = (Raise e, w').
Proof. unfold bind. intros ->. reflexivity. Qed.

Lemma bind_lift_ok {A B} (a : A) (k : A → M B) w :
  bind (lift (Ok a)) k w = k a w.
Proof. reflexivity. Qed.

Lemma after_bind {A B} (m : M A) (k : A → M B) w :
  after (bind m k) w =
  match outcome m w with
  | Ok a => after (k a) (after m w)
  | Raise _ => after m w
  end.
Proof.
  unfold after, outcome, bind. destruct (m w) as [[a|e] w']; reflexivity.
Qed.

Lemma outcome_bind {A B} (m : M A) (k : A → M B) w :
  outcome (bind m k) w =
  match outcome m w with
  | Ok a => outcome (k a) (after m w)
  | Raise e => Raise e
  end.
Proof.
  unfold after, outcome, bind. destruct (m w) as [[a|e] w']; reflexivity.
Qed.

(** ** The cooldown decision *)

Section Decision.

Variable E : env.

(** [should_alert] only reads the clock: it returns whether the reading
    is at least the cooldown past the last firing, or past 0 when the
    pair never fired. *)
Lemma should_alert_run lab_id k kd w :
  Py.hashable lab_id = Ok k →
  should_alert E lab_id kd w =
  (Ok (time_time E (clock_reads w) - default 0 (_last_alert w !! (k, kd))
       >=? ALERT_COOLDOWN_SEC E),
   tick_clock w).
Proof. intros Hk. unfold should_alert, bind, lift. rewrite Hk. reflexivity. Qed.

Lemma should_alert_unhashable lab_id kd w e :
  Py.hashable lab_id = Raise e → should_alert E lab_id kd w = (Raise e, w).
Proof. intros Hk. unfold should_alert, bind, lift. rewrite Hk. reflexivity. Qed.

End Decision.

(** C6. The decision for a (lab, kind) pair that fired before: it is
    suppressed exactly when the time elapsed since the last firing is
    strictly less than the cooldown, and fires otherwise, an elapsed time
    equal to the cooldown included. With a cooldown of 300 s a check 0 s
    or 10 s after the firing is suppressed and one 301 s after fires. *)
Theorem should_alert_decision (E : env) lab_id k kd last w :
  Py.hashable lab_id = Ok k →
  _last_alert w !! (k, kd) = Some last →
  let elapsed := time_time E (clock_reads w) - last in
  (outcome (should_alert E lab_id kd) w = Ok false
     ↔ elapsed < ALERT_COOLDOWN_SEC E) ∧
  (outcome (should_alert E lab_id kd) w = Ok true
     ↔ ALERT_COOLDOWN_SEC E ≤ elapsed) ∧
  (elapsed = ALERT_COOLDOWN_SEC E →
     outcome (should_alert E lab_id kd) w = Ok true) ∧
  (ALERT_COOLDOWN_SEC E = 300 →
     (elapsed = 0 → outcome (should_alert E lab_id kd) w = Ok false) ∧
     (elapsed = 10 → outcome (should_alert E lab_id kd) w = Ok false) ∧
     (elapsed = 301 → outcome (should_alert E lab_id kd) w = Ok true)).
Proof.
  intros Hk Hlast elapsed. unfold outcome.
  rewrite (should_alert_run E _ _ _ _ Hk), Hlast. simpl.
  fold elapsed. rewrite Z.geb_leb.
  destruct (Z.leb_spec (ALERT_COOLDOWN_SEC E) elapsed);
    repeat split; intros; first [done | lia].
Qed.

(** C3 (amended). For a (lab, kind) pair that never fired, the elapsed
    time of the decision is measured from timestamp 0, the default of the
    lookup in [_last_alert], not from process start: the decision is to
    fire exactly when the clock reading itself is at least the cooldown. *)
Theorem never_fired_counts_from_zero (E : env) lab_id k kd w :
  Py.hashable lab_id = Ok k →
  _last_alert w !! (k, kd) = None →
  outcome (should_alert E lab_id kd) w
  = Ok (time_time E (clock_reads w) - 0 >=? ALERT_COOLDOWN_SEC E) ∧
  (outcome (should_alert E lab_id kd) w = Ok true
     ↔ ALERT_COOLDOWN_SEC E ≤ time_time E (clock_reads w)).
Proof.
  intros Hk Hnone. unfold outcome.
  rewrite (should_alert_run E _ _ _ _ Hk), Hnone. simpl.
  split; [reflexivity|].
  rewrite Z.sub_0_r, Z.geb_leb.
  destruct (Z.leb_spec (ALERT_COOLDOWN_SEC E) (time_time E (clock_reads w)));
    split; intros; first [done | lia].
Qed.

(** ** Threshold checks *)

Lemma gt_numbers (x b : Qc) :
  Py.gt (JNum x) (JNum b) = Ok (bool_decide (b < x)%Qc).
Proof. reflexivity. Qed.

Lemma lt_numbers (x b : Qc) :
  Py.lt (JNum x) (JNum b) = Ok (bool_decide (x < b)%Qc).
Proof. reflexivity. Qed.

Lemma get_absent kvs k d : Py.assoc k kvs = None → Py.get (JObj kvs) k d = Ok d.
Proof. unfold Py.get. by intros ->. Qed.

Lemma get_present kvs k d v :
  Py.assoc k kvs = Some v → Py.get (JObj kvs) k d = Ok v.
Proof. unfold Py.get. by intros ->. Qed.

(** The comparison of a numeric reading with a numeric bound. *)
Lemma violates_numbers c thr (x b : Qc) :
  Py.get thr (kind c) (JInt (fallback c)) = Ok (JNum b) →
  violates c thr (JNum x)
  = Ok (if above c then bool_decide (b < x)%Qc else bool_decide (x < b)%Qc).
Proof. unfold violates. intros ->. by destruct (above c). Qed.


(** C1 (amended). When the threshold set of a lab omits a bound, the
    check compares the reading with the fallback of the lookup, 999 on the
    high side and -999 on the low side: a temperature or humidity fires
    the high check exactly when it is above 999 and the low check exactly
    when it is below -999. No reading between -999 and 999 triggers a
    check whose bound is absent: that check leaves the state as it is. *)
Theorem absent_bound_uses_fallback (E : env) c lab_id kvs sid (x : Qc) w :
  c ∈ checks →
  Py.assoc (kind c) kvs = None →
  violates c (JObj kvs) (JNum x)
  = Ok (if above c then bool_decide (Qc_of_Z 999 < x)%Qc
        else bool_decide (x < Qc_of_Z (-999))%Qc) ∧
  ((Qc_of_Z (-999) ≤ x)%Qc ∧ (x ≤ Qc_of_Z 999)%Qc →
   check_bound E c lab_id (JObj kvs) sid (JNum x) w = (Ok tt, w)).
Proof.
  intros Hc Habs.
  assert (Hv : violates c (JObj kvs) (JNum x)
    = Ok (if above c then bool_decide (Qc_of_Z 999 < x)%Qc
          else bool_decide (x < Qc_of_Z (-999))%Qc)).
  { rewrite (violates_numbers c _ x (Qc_of_Z (fallback c))).
    - unfold checks in Hc.
      repeat (apply elem_of_cons in Hc as [-> | Hc]); try reflexivity.
      by apply elem_of_nil in Hc.
    - by apply get_absent. }
  split; [exact Hv|].
  intros [Hlo Hhi]. unfold check_bound. rewrite Hv.
  destruct (above c).
  - rewrite bool_decide_eq_false_2; [reflexivity | by apply Qcle_not_lt].
  - rewrite bool_decide_eq_false_2; [reflexivity | by apply Qcle_not_lt].
Qed.


(** ** Deliveries *)

(** Whatever [pick] does, [arrange] yields every item once. *)
Lemma arrange_permutation pick n : ∀ l, length l = n → arrange pick n l ≡ₚ l.
Proof.
  induction n as [|n IH]; intros l Hlen.
  - by destruct l.
  - destruct l as [|x l]; [done|]. cbn [arrange].
    set (i := (pick (x :: l) `mod` length (x :: l))%nat).
    assert (Hi : (i < length (x :: l))%nat)
      by (apply Nat.mod_upper_bound; simpl; lia).
    destruct (lookup_lt_is_Some_2 _ _ Hi) as [y Hy].
    rewrite (nth_lookup_Some _ _ _ _ Hy).
    rewrite (delete_Permutation _ _ _ Hy) at 2. constructor.
    apply IH. rewrite length_delete by eauto. simpl in *. lia.
Qed.

(** An iteration over a set yields each of its items once. *)
Lemma iteration_permutation E K : iteration E K ≡ₚ elements K.
Proof. apply arrange_permutation. reflexivity. Qed.


Lemma elem_of_iteration E K chat : chat ∈ iteration E K ↔ chat ∈ K.
Proof. by rewrite iteration_permutation, elem_of_elements. Qed.

Lemma sent_app l1 l2 : sent (l1 ++ l2) = sent l1 ++ sent l2.
Proof. apply omap_app. Qed.

Lemma tracked_app l1 l2 : tracked (l1 ++ l2) = tracked l1 ++ tracked l2.
Proof. apply omap_app. Qed.

(** Deliveries are no firings. *)
Lemma tracked_reverse_sent (msg : message) chats :
  tracked (reverse (map (λ chat, Sent chat msg) chats)) = [].
Proof.
  induction chats as [|c chats IH]; [reflexivity|].
  simpl. by rewrite reverse_cons, tracked_app, IH.
Qed.

Lemma tracked_cons_tracked k kd ts l :
  tracked (Tracked k kd ts :: l) = (k, kd, ts) :: tracked l.
Proof. reflexivity. Qed.

Lemma sent_cons_tracked k kd ts l : sent (Tracked k kd ts :: l) = sent l.
Proof. reflexivity. Qed.

Lemma sent_reverse_map msg chats :
  sent (reverse (map (λ chat, Sent chat msg) chats))
  = reverse (map (λ chat, (chat, msg)) chats).
Proof.
  induction chats as [|c chats IH]; [reflexivity|].
  simpl. rewrite !reverse_cons, sent_app, IH. reflexivity.
Qed.

(** Chats that are in the set already leave it as it is. *)
Lemma add_known_chats chats (K : gset Z) :
  (∀ chat, chat ∈ chats → chat ∈ K) → list_to_set chats ∪ K = K.
Proof.
  intros Hin. apply subseteq_union_1_L. intros chat Hc.
  apply Hin. by apply elem_of_list_to_set in Hc.
Qed.

(** A chat that is not in the set makes it larger. *)
Lemma add_new_chat chats (K : gset Z) chat :
  chat ∈ chats → chat ∉ K → size (list_to_set chats ∪ K) ≠ size K.
Proof.
  intros Hin Hnew Heq.
  assert (Hsub : K ⊂ list_to_set chats ∪ K).
  { split; [apply union_subseteq_r|]. intros Hback. apply Hnew, Hback.
    apply elem_of_union_l. by apply elem_of_list_to_set. }
  apply subset_size in Hsub. lia.
Qed.

Lemma calm_head E K from count :
  calm E K from (S count) → ∀ chat, chat ∈ arrivals E from → chat ∈ K.
Proof.
  intros Hcalm chat Hin. apply (Hcalm 0%nat); [lia|]. by rewrite Nat.add_0_r.
Qed.

Lemma calm_tail E K from count :
  calm E K from (S count) → calm E K (S from) count.
Proof.
  intros Hcalm i chat Hi Hin. apply (Hcalm (S i)); [lia|].
  by rewrite Nat.add_succ_r.
Qed.

Section Deliveries.

Variable E : env.

(** A look that finds nothing new. *)
Lemma look_calm w :
  (∀ chat, chat ∈ arrivals E (looks w) → chat ∈ KNOWN_CHATS w) →
  look E w = (Ok (KNOWN_CHATS w), count_look w).
Proof.
  intros Hin. unfold look, add_chats, count_look. simpl.
  by rewrite (add_known_chats _ _ Hin).
Qed.

(** When every delivery returns and no chat joins meanwhile, every chat
    is sent the message, in the order of the iteration. *)
Lemma deliver_all_return msg used chats : ∀ w,
  size (KNOWN_CHATS w) = used →
  calm E (KNOWN_CHATS w) (looks w) (S (length chats)) →
  (∀ i, (i < length chats)%nat →
     sendMessage_returns E (send_calls w + i) = true) →
  deliver E used chats msg w
  = (Ok tt,
     {| KNOWN_CHATS := KNOWN_CHATS w; _last_alert := _last_alert w;
        clock_reads := clock_reads w;
        send_calls := send_calls w + length chats;
        looks := looks w + S (length chats);
        journal := reverse (map (λ chat, Sent chat msg) chats) ++ journal w |}).
Proof.
  induction chats as [|chat chats IH]; intros w Hsize Hcalm Hall;
    cbn [deliver]; unfold bind at 1;
    rewrite (look_calm w (calm_head _ _ _ _ Hcalm)), Hsize, Nat.eqb_refl;
    cbn [negb].
  - unfold ret, count_look. simpl. do 2 f_equal; lia.
  - unfold bind, sendMessage at 1. cbn [send_calls count_look].
    specialize (Hall 0%nat ltac:(simpl; lia)) as H0.
    rewrite Nat.add_0_r in H0. rewrite H0.
    rewrite IH.
    + simpl. rewrite reverse_cons, <- app_assoc. simpl.
      do 2 f_equal; lia.
    + exact Hsize.
    + apply calm_tail, Hcalm.
    + intros i Hi. simpl.
      specialize (Hall (S i) ltac:(simpl; lia)).
      by rewrite Nat.add_succ_r in Hall.
Qed.

(** The first delivery that raises ends the iteration: the chats before
    it have been sent the message, the chats after it have not. *)
Lemma deliver_first_failure msg used pre chat post : ∀ w,
  size (KNOWN_CHATS w) = used →
  calm E (KNOWN_CHATS w) (looks w) (S (length pre)) →
  (∀ i, (i < length pre)%nat →
     sendMessage_returns E (send_calls w + i) = true) →
  sendMessage_returns E (send_calls w + length pre) = false →
  deliver E used (pre ++ chat :: post) msg w
  = (Raise DeliveryError,
     {| KNOWN_CHATS := KNOWN_CHATS w; _last_alert := _last_alert w;
        clock_reads := clock_reads w;
        send_calls := send_calls w + S (length pre);
        looks := looks w + S (length pre);
        journal := reverse (map (λ chat, Sent chat msg) pre) ++ journal w |}).
Proof.
  induction pre as [|c pre IH]; intros w Hsize Hcalm Hall Hfail;
    cbn [app deliver]; unfold bind at 1;
    rewrite (look_calm w (calm_head _ _ _ _ Hcalm)), Hsize, Nat.eqb_refl;
    cbn [negb]; unfold bind, sendMessage at 1; cbn [send_calls count_look].
  - simpl in Hfail. rewrite Nat.add_0_r in Hfail. rewrite Hfail.
    unfold count_send. simpl. do 2 f_equal; lia.
  - specialize (Hall 0%nat ltac:(simpl; lia)) as H0.
    rewrite Nat.add_0_r in H0. rewrite H0.
    rewrite IH.
    + simpl. rewrite reverse_cons, <- app_assoc. simpl.
      do 2 f_equal; lia.
    + exact Hsize.
    + apply calm_tail, Hcalm.
    + intros i Hi. simpl.
      specialize (Hall (S i) ltac:(simpl; lia)).
      by rewrite Nat.add_succ_r in Hall.
    + simpl in *. by rewrite Nat.add_succ_r in Hfail.
Qed.

(** A chat that joins during the deliveries ends the iteration at its
    next step: the chats before that step have been sent the message,
    the chats after it have not. *)
Lemma deliver_set_changed msg used pre post late : ∀ w,
  size (KNOWN_CHATS w) = used →
  calm E (KNOWN_CHATS w) (looks w) (length pre) →
  (∀ i, (i < length pre)%nat →
     sendMessage_returns E (send_calls w + i) = true) →
  late ∈ arrivals E (looks w + length pre) →
  late ∉ KNOWN_CHATS w →
  deliver E used (pre ++ post) msg w
  = (Raise RuntimeError,
     {| KNOWN_CHATS :=
          list_to_set (arrivals E (looks w + length pre)) ∪ KNOWN_CHATS w;
        _last_alert := _last_alert w;
        clock_reads := clock_reads w;
        send_calls := send_calls w + length pre;
        looks := looks w + S (length pre);
        journal := reverse (map (λ chat, Sent chat msg) pre) ++ journal w |}).
Proof.
  induction pre as [|c pre IH]; intros w Hsize Hcalm Hall Hlate Hnew.
  - simpl in Hlate. rewrite Nat.add_0_r in Hlate.
    assert (Hrun : ∀ rest, deliver E used rest msg w
              = (Raise RuntimeError,
                 count_look (add_chats (arrivals E (looks w)) w))).
    { intros rest. destruct rest; cbn [deliver]; unfold bind at 1, look;
        cbn [KNOWN_CHATS count_look add_chats];
        rewrite (proj2 (Nat.eqb_neq _ _));
        try reflexivity; rewrite <- Hsize; by apply (add_new_chat _ _ late). }
    cbn [app]. rewrite Hrun. unfold count_look, add_chats. simpl.
    rewrite !Nat.add_0_r. do 2 f_equal; lia.
  - cbn [app deliver]. unfold bind at 1.
    rewrite (look_calm w (calm_head _ _ _ _ Hcalm)), Hsize, Nat.eqb_refl.
    cbn [negb]. unfold bind, sendMessage at 1. cbn [send_calls count_look].
    specialize (Hall 0%nat ltac:(simpl; lia)) as H0.
    rewrite Nat.add_0_r in H0. rewrite H0.
    rewrite IH.
    + simpl. rewrite reverse_cons, <- app_assoc. simpl.
      rewrite !Nat.add_succ_r. do 2 f_equal; lia.
    + exact Hsize.
    + apply calm_tail, Hcalm.
    + intros i Hi. simpl.
      specialize (Hall (S i) ltac:(simpl; lia)).
      by rewrite Nat.add_succ_r in Hall.
    + simpl in *. by rewrite Nat.add_succ_r in Hlate.
    + exact Hnew.
Qed.

Lemma track_alert_run lab_id k kd w :
  Py.hashable lab_id = Ok k →
  track_alert E lab_id kd w
  = (Ok tt,
     record (Tracked k kd (time_time E (clock_reads w)))
            (store k kd (time_time E (clock_reads w)) (tick_clock w))).
Proof. intros Hk. unfold track_alert, bind, lift, now. by rewrite Hk. Qed.

(** The state in which the iterator of a firing is made. *)
Lemma fire_run c lab_id thr sid v shown w :
  Py.get thr (kind c) JNull = Ok shown →
  let w0 := count_look (add_chats (arrivals E (looks w)) w) in
  fire E c lab_id thr sid v w
  = (let* _ := deliver E (size (KNOWN_CHATS w0)) (iteration E (KNOWN_CHATS w0))
                 (Message lab_id (quantity c) v (above c) shown sid) in
     track_alert E lab_id (kind c)) w0.
Proof.
  intros Hshown w0. unfold fire. unfold bind at 1, lift at 1. rewrite Hshown.
  reflexivity.
Qed.

End Deliveries.

(** C5 (amended). Once the decision to fire is made, the message goes to
    the recipients one after the other, in the order in which the set
    yields them, and the last-fired timestamp of the pair is written
    after the last delivery. When every delivery returns and no chat
    joins during the deliveries, every recipient is sent the message once
    and the timestamp is updated. A delivery that raises is not caught:
    the recipients before it have been served, those after it are not,
    and the timestamp is not updated. A chat that joins during the
    deliveries makes the next step of the iteration raise [RuntimeError],
    with the same effect, even though every delivery returns. *)
Theorem fire_delivers_then_tracks (E : env) c lab_id thr sid v k shown w :
  Py.get thr (kind c) JNull = Ok shown →
  Py.hashable lab_id = Ok k →
  let K := list_to_set (arrivals E (looks w)) ∪ KNOWN_CHATS w in
  let chats := iteration E K in
  let msg := Message lab_id (quantity c) v (above c) shown sid in
  let w' := after (fire E c lab_id thr sid v) w in
  chats ≡ₚ elements K ∧
  (calm E K (S (looks w)) (S (length chats)) →
   (∀ i, (i < length chats)%nat →
      sendMessage_returns E (send_calls w + i) = true) →
   outcome (fire E c lab_id thr sid v) w = Ok tt ∧
   deliveries w' = deliveries w ++ map (λ chat, (chat, msg)) chats ∧
   _last_alert w'
   = <[(k, kind c) := time_time E (clock_reads w)]> (_last_alert w)) ∧
  (∀ pre chat post,
     chats = pre ++ chat :: post →
     calm E K (S (looks w)) (S (length pre)) →
     (∀ i, (i < length pre)%nat →
        sendMessage_returns E (send_calls w + i) = true) →
     sendMessage_returns E (send_calls w + length pre) = false →
     outcome (fire E c lab_id thr sid v) w = Raise DeliveryError ∧
     deliveries w' = deliveries w ++ map (λ chat, (chat, msg)) pre ∧
     _last_alert w' = _last_alert w) ∧
  (∀ pre post late,
     chats = pre ++ post →
     calm E K (S (looks w)) (length pre) →
     (∀ i, (i < length pre)%nat →
        sendMessage_returns E (send_calls w + i) = true) →
     late ∈ arrivals E (S (looks w) + length pre) →
     late ∉ K →
     outcome (fire E c lab_id thr sid v) w = Raise RuntimeError ∧
     deliveries w' = deliveries w ++ map (λ chat, (chat, msg)) pre ∧
     _last_alert w' = _last_alert w).
Proof.
  intros Hshown Hk K chats msg w'. subst w'. unfold outcome, after.
  rewrite (fire_run E c lab_id thr sid v shown w Hshown). cbv zeta.
  set (w0 := count_look (add_chats (arrivals E (looks w)) w)).
  change (KNOWN_CHATS w0) with K. fold chats msg.
  assert (Hsize : size (KNOWN_CHATS w0) = size K) by reflexivity.
  split; [apply iteration_permutation|]. split; [|split].
  - intros Hcalm Hall. unfold bind.
    rewrite (deliver_all_return E msg (size K) chats w0 Hsize Hcalm Hall).
    rewrite (track_alert_run E _ _ _ _ Hk).
    simpl. split; [reflexivity|]. split; [|reflexivity].
    unfold deliveries. simpl. rewrite sent_app, sent_reverse_map.
    by rewrite reverse_app, reverse_involutive.
  - intros pre chat post Hsplit Hcalm Hall Hfail. unfold bind.
    rewrite Hsplit.
    rewrite (deliver_first_failure E msg (size K) pre chat post w0
               Hsize Hcalm Hall Hfail).
    simpl. split; [reflexivity|]. split; [|reflexivity].
    unfold deliveries. simpl. rewrite sent_app, sent_reverse_map.
    by rewrite reverse_app, reverse_involutive.
  - intros pre post late Hsplit Hcalm Hall Hlate Hnew. unfold bind.
    rewrite Hsplit.
    rewrite (deliver_set_changed E msg (size K) pre post late w0
               Hsize Hcalm Hall Hlate Hnew).
    simpl. split; [reflexivity|]. split; [|reflexivity].
    unfold deliveries. simpl. rewrite sent_app, sent_reverse_map.
    by rewrite reverse_app, reverse_involutive.
Qed.


(** ** Idle and failed cycles *)




(** ** Steps that keep a relation *)

Section Respect.

Variable R : world → world → Prop.
Hypothesis R_refl : ∀ w, R w w.
Hypothesis R_trans : ∀ w1 w2 w3, R w1 w2 → R w2 w3 → R w1 w3.

Lemma respects_ret {A} (a : A) : respects R (ret a).
Proof. intros w. apply R_refl. Qed.

Lemma respects_lift {A} (r : result A) : respects R (lift r).
Proof. intros w. apply R_refl. Qed.

Lemma respects_read {A} (f : world → A) : respects R (read f).
Proof. intros w. apply R_refl. Qed.

Lemma respects_bind {A B} (m : M A) (k : A → M B) :
  respects R m → (∀ a, respects R (k a)) → respects R (bind m k).
Proof.
  intros Hm Hk w. rewrite after_bind.
  destruct (outcome m w) as [a|e]; [|apply Hm].
  eapply R_trans; [apply Hm | apply Hk].
Qed.

Lemma respects_for_each {A} (xs : list A) (body : A → M unit) :
  (∀ x, respects R (body x)) → respects R (for_each xs body).
Proof.
  intros Hbody. induction xs as [|x xs IH]; simpl.
  - apply respects_ret.
  - apply respects_bind; [apply Hbody | intros _; apply IH].
Qed.

(** The layers of the loop above [alert] only sequence it with reads of
    the answer, a fetch and a sleep. *)
Variable E : env.
Hypothesis alert_respects :
  ∀ c lab_id thr sid v, respects R (alert E c lab_id thr sid v).
Hypothesis sleep_respects : ∀ secs, respects R (sleep secs).
Hypothesis get_respects : ∀ ep r, respects R (_get ep r).

Lemma check_bound_respects c lab_id thr sid v :
  respects R (check_bound E c lab_id thr sid v).
Proof.
  unfold check_bound. apply respects_bind; [apply respects_lift|].
  intros []; [apply alert_respects | apply respects_ret].
Qed.

Lemma check_sensor_respects lab_id thr sensor :
  respects R (check_sensor E lab_id thr sensor).
Proof.
  unfold check_sensor.
  repeat (apply respects_bind; [apply respects_lift | intros ?]).
  apply respects_bind.
  - destruct (Py.is_None _); [apply respects_ret|].
    apply respects_bind; [|intros _]; apply check_bound_respects.
  - intros _. destruct (Py.is_None _); [apply respects_ret|].
    apply respects_bind; [|intros _]; apply check_bound_respects.
Qed.

Lemma check_lab_respects lab : respects R (check_lab E lab).
Proof.
  unfold check_lab.
  repeat (apply respects_bind; [apply respects_lift | intros ?]).
  apply respects_for_each. intros sensor. apply check_sensor_respects.
Qed.

Lemma poll_cycle_respects r : respects R (poll_cycle E r).
Proof.
  unfold poll_cycle. apply respects_bind; [apply respects_read|].
  intros []; [apply sleep_respects|].
  apply respects_bind; [apply get_respects | intros data].
  repeat (apply respects_bind; [apply respects_lift | intros ?]).
  apply respects_bind; [|intros _; apply sleep_respects].
  apply respects_for_each. intros lab. apply check_lab_respects.
Qed.

Hypothesis join_respects : ∀ chat, respects R (handle_start chat).

Lemma poll_alerts_respects ticks : respects R (poll_alerts E ticks).
Proof.
  induction ticks as [|tk rest IH]; simpl; [apply respects_ret|].
  apply respects_bind; [by apply respects_for_each | intros _].
  apply respects_bind; [apply poll_cycle_respects | intros _; apply IH].
Qed.

End Respect.

(** The layers of the loop below [alert]: the decision reads the clock,
    the firing looks at the set, delivers and writes the firing down. *)
Section Steps.

Variable R : world → world → Prop.
Hypothesis R_refl : ∀ w, R w w.
Hypothesis R_trans : ∀ w1 w2 w3, R w1 w2 → R w2 w3 → R w1 w3.
Variable E : env.
Hypothesis now_step : respects R (now E).
Hypothesis look_step : respects R (look E).
Hypothesis send_step : ∀ chat msg, respects R (sendMessage E chat msg).

Lemma deliver_respects used rest msg : respects R (deliver E used rest msg).
Proof.
  induction rest as [|chat rest IH]; cbn [deliver];
    (apply respects_bind; [exact R_trans | exact look_step | intros K]);
    (destruct (negb _); [by apply respects_lift|]).
  - by apply respects_ret.
  - apply respects_bind; [exact R_trans | apply send_step | intros _; exact IH].
Qed.

Lemma should_alert_respects lab_id kd : respects R (should_alert E lab_id kd).
Proof.
  unfold should_alert.
  apply respects_bind; [exact R_trans | by apply respects_lift | intros k].
  apply respects_bind; [exact R_trans | by apply respects_read | intros last].
  apply respects_bind; [exact R_trans | exact now_step | intros t].
  by apply respects_ret.
Qed.

Hypothesis track_step : ∀ lab_id kd, respects R (track_alert E lab_id kd).

(** A relation kept by a clock reading, a look at the set, a delivery
    and the writing of a firing is kept by the decision and the firing
    it guards. *)
Lemma alert_respects_steps c lab_id thr sid v :
  respects R (alert E c lab_id thr sid v).
Proof.
  unfold alert. apply respects_bind; [exact R_trans | |].
  - apply should_alert_respects.
  - intros []; [|by apply respects_ret]. unfold fire.
    apply respects_bind; [exact R_trans | by apply respects_lift | intros shown].
    apply respects_bind; [exact R_trans | exact look_step | intros K].
    apply respects_bind; [exact R_trans | | intros _; apply track_step].
    apply deliver_respects.
Qed.

End Steps.

(** ** The frame of a cycle *)

Lemma arrived_none E n : arrived E n n = ∅.
Proof. unfold arrived. by rewrite Nat.sub_diag. Qed.

Lemma arrived_one E n : arrived E n (S n) = list_to_set (arrivals E n).
Proof.
  unfold arrived. replace (S n - n)%nat with 1%nat by lia. simpl.
  apply (right_id_L ∅ (∪)).
Qed.

Lemma arrived_app E a b c :
  (a ≤ b)%nat → (b ≤ c)%nat → arrived E a b ∪ arrived E b c = arrived E a c.
Proof.
  intros Hab Hbc. unfold arrived.
  replace (c - a)%nat with ((b - a) + (c - b))%nat by lia.
  rewrite seq_app, map_app, union_list_app_L.
  by replace (a + (b - a))%nat with b by lia.
Qed.

Lemma arrived_undisturbed E a b : undisturbed E → arrived E a b = ∅.
Proof.
  intros Hnone. unfold arrived. induction (seq a (b - a)) as [|i l IH]; [done|].
  simpl. rewrite Hnone, IH. simpl. apply (left_id_L ∅ (∪)).
Qed.

Lemma framed_refl E w : framed E w w.
Proof.
  split; [done|]. split.
  - rewrite arrived_none. by rewrite (right_id_L ∅ (∪)).
  - exists []. by split.
Qed.

Lemma framed_trans E w1 w2 w3 :
  framed E w1 w2 → framed E w2 w3 → framed E w1 w3.
Proof.
  intros (Hn1 & Hc1 & new1 & Hj1 & Hl1) (Hn2 & Hc2 & new2 & Hj2 & Hl2).
  split; [lia|]. split.
  - by rewrite Hc2, Hc1, <- (assoc_L (∪)), arrived_app.
  - exists (new2 ++ new1). split; [by rewrite Hj2, Hj1, app_assoc|].
    intros k kd Hnone. rewrite tracked_app in Hnone.
    rewrite Hl2, Hl1; [done | |];
      intros ts Hin; apply (Hnone ts), elem_of_app; auto.
Qed.

(** A step that writes no firing, does not look at the set and leaves
    the two globals alone. *)
Lemma framed_quiet E w w' new :
  KNOWN_CHATS w' = KNOWN_CHATS w →
  looks w' = looks w →
  _last_alert w' = _last_alert w →
  journal w' = new ++ journal w →
  framed E w w'.
Proof.
  intros Hc Hn Hl Hj. split; [lia|]. split.
  - rewrite Hn, arrived_none, Hc. by rewrite (right_id_L ∅ (∪)).
  - exists new. split; [done|]. intros k kd _. by rewrite Hl.
Qed.

Section Frame.

Variable E : env.

Lemma now_framed : respects (framed E) (now E).
Proof. intros w. by apply (framed_quiet _ _ _ []). Qed.

Lemma sleep_framed secs : respects (framed E) (sleep secs).
Proof.
  intros w. unfold after, sleep. destruct (bool_decide _); simpl.
  - apply framed_refl.
  - by apply (framed_quiet _ _ _ [Slept secs]).
Qed.

Lemma get_framed ep r : respects (framed E) (_get ep r).
Proof. intros w. by apply (framed_quiet _ _ _ [Fetched ep]). Qed.

Lemma sendMessage_framed chat msg :
  respects (framed E) (sendMessage E chat msg).
Proof.
  intros w. unfold after, sendMessage.
  destruct (sendMessage_returns _ _); simpl.
  - by apply (framed_quiet _ _ _ [Sent chat msg]).
  - by apply (framed_quiet _ _ _ []).
Qed.

(** A look at the set finds the chats the handler thread added. *)
Lemma look_framed : respects (framed E) (look E).
Proof.
  intros w. unfold after, look. simpl. split; [simpl; lia|]. split.
  - simpl. rewrite arrived_one. apply (comm_L (∪)).
  - exists []. by split.
Qed.

(** [track_alert] writes the entry of its own pair and no other. *)
Lemma track_alert_framed lab_id kd :
  respects (framed E) (track_alert E lab_id kd).
Proof.
  intros w. unfold after, track_alert, bind, now, lift.
  destruct (Py.hashable lab_id) as [k|e]; simpl.
  - split; [simpl; lia|]. split.
    + simpl. rewrite arrived_none. by rewrite (right_id_L ∅ (∪)).
    + exists [Tracked k kd (time_time E (clock_reads w))].
      split; [done|]. intros k' kd' Hnone. simpl.
      apply lookup_insert_ne. intros [= <- <-].
      apply (Hnone (time_time E (clock_reads w))). simpl. left.
  - by apply (framed_quiet _ _ _ []).
Qed.

Lemma alert_framed c lab_id thr sid v :
  respects (framed E) (alert E c lab_id thr sid v).
Proof.
  apply alert_respects_steps.
  - apply framed_refl.
  - apply framed_trans.
  - apply now_framed.
  - apply look_framed.
  - apply sendMessage_framed.
  - apply track_alert_framed.
Qed.

Lemma poll_cycle_framed r : respects (framed E) (poll_cycle E r).
Proof.
  apply poll_cycle_respects.
  - apply framed_refl.
  - apply framed_trans.
  - apply alert_framed.
  - apply sleep_framed.
  - apply get_framed.
Qed.

End Frame.

(** C10. What one cycle of the loop does to the two globals: the loop
    adds no recipient and removes none, the set of recipients changing
    only by the chats the handler thread adds to it meanwhile, and it
    leaves every entry of [_last_alert] whose (lab, kind) pair did not
    fire in the cycle as it is: a firing of kind [kd] for lab [k] touches
    the entry of [(k, kd)] alone, not the other kinds of the lab and not
    the other labs. A cycle without firings leaves the whole mapping
    unchanged. *)
Theorem firing_touches_only_its_pair (E : env) r w :
  let w' := after (poll_cycle E r) w in
  KNOWN_CHATS w' = KNOWN_CHATS w ∪ arrived E (looks w) (looks w') ∧
  (undisturbed E → KNOWN_CHATS w' = KNOWN_CHATS w) ∧
  ∃ fired,
    firings w' = firings w ++ fired ∧
    (∀ k kd, (∀ ts, (k, kd, ts) ∉ fired) →
       _last_alert w' !! (k, kd) = _last_alert w !! (k, kd)) ∧
    (fired = [] → _last_alert w' = _last_alert w).
Proof.
  intros w'. destruct (poll_cycle_framed E r w) as (Hn & Hc & new & Hj & Hl).
  fold w' in Hn, Hc, Hj, Hl. split; [exact Hc|]. split.
  { intros Hnone. rewrite Hc, (arrived_undisturbed _ _ _ Hnone).
    apply (right_id_L ∅ (∪)). }
  exists (reverse (tracked new)).
  assert (Hframe : ∀ k kd, (∀ ts, (k, kd, ts) ∉ reverse (tracked new)) →
            _last_alert w' !! (k, kd) = _last_alert w !! (k, kd)).
  { intros k kd Hnone. apply Hl. intros ts Hin.
    apply (Hnone ts). by apply elem_of_reverse. }
  split; [|split].
  - unfold firings. by rewrite Hj, tracked_app, reverse_app.
  - exact Hframe.
  - intros Hnil. apply map_eq. intros [k kd]. apply Hframe.
    intros ts. rewrite Hnil. apply not_elem_of_nil.
Qed.

(** ** The cooldown invariant *)

Section Cooldown.

Variable E : env.
Hypothesis clock_monotone : monotone (time_time E).

Lemma keeps_refl w : keeps E w w.
Proof. by intros H. Qed.

Lemma keeps_trans w1 w2 w3 : keeps E w1 w2 → keeps E w2 w3 → keeps E w1 w3.
Proof. unfold keeps. tauto. Qed.

(** The invariant looks at the entries, the clock and the firings only,
    and the clock may advance. *)
Lemma cooled_transfer w w' :
  _last_alert w' = _last_alert w →
  (clock_reads w ≤ clock_reads w')%nat →
  tracked (journal w') = tracked (journal w) →
  cooled E w → cooled E w'.
Proof.
  intros Hl Hc Hj (I1 & I2 & I3). unfold cooled. rewrite Hl, Hj.
  split; [exact I1|]. split; [|exact I3].
  intros key last Hlast n Hn. apply (I2 key last Hlast). lia.
Qed.

Lemma sleep_keeps secs : respects (keeps E) (sleep secs).
Proof.
  intros w. unfold after, sleep. destruct (bool_decide _); simpl.
  - apply keeps_refl.
  - intros Hcool. by apply (cooled_transfer w).
Qed.

Lemma get_keeps ep r : respects (keeps E) (_get ep r).
Proof. intros w Hcool. by apply (cooled_transfer w). Qed.

Lemma join_keeps chat : respects (keeps E) (handle_start chat).
Proof. intros w Hcool. by apply (cooled_transfer w). Qed.

(** The deliveries change neither the entries, nor the clock, nor the
    firings. *)
Lemma send_inert chat msg w :
  let w' := after (sendMessage E chat msg) w in
  _last_alert w' = _last_alert w ∧
  clock_reads w' = clock_reads w ∧
  tracked (journal w') = tracked (journal w).
Proof.
  unfold after, sendMessage.
  by destruct (sendMessage_returns E (send_calls w)).
Qed.

Lemma deliver_inert used chats msg w :
  let w' := after (deliver E used chats msg) w in
  _last_alert w' = _last_alert w ∧
  clock_reads w' = clock_reads w ∧
  tracked (journal w') = tracked (journal w).
Proof.
  apply (deliver_respects
           (λ w w', _last_alert w' = _last_alert w ∧
                    clock_reads w' = clock_reads w ∧
                    tracked (journal w') = tracked (journal w))).
  - done.
  - intros w1 w2 w3 (H1 & H2 & H3) (H4 & H5 & H6).
    by rewrite H4, H5, H6.
  - done.
  - intros chat m w0. apply send_inert.
Qed.

(** Writing down a firing of a due pair keeps the invariant. *)
Lemma track_keeps_when_due k kd w :
  cooled E w → due E k kd w →
  cooled E (record (Tracked k kd (time_time E (clock_reads w)))
              (store k kd (time_time E (clock_reads w)) (tick_clock w))).
Proof.
  intros (I1 & I2 & I3) (n & Hn & Hdue).
  set (ts := time_time E (clock_reads w)).
  assert (Hpast : ∀ a, (k, kd, a) ∈ tracked (journal w) →
            a ≤ ts ∧ ALERT_COOLDOWN_SEC E ≤ ts - a).
  { intros a Ha. destruct (I1 _ _ _ Ha) as (last & Hlast & Hle).
    rewrite Hlast in Hdue. simpl in Hdue.
    assert (time_time E n ≤ ts) by (apply clock_monotone; lia).
    assert (last ≤ ts) by (apply (I2 _ _ Hlast); lia).
    lia. }
  split; [|split]; simpl.
  - intros k' kd' ts' Hin.
    destruct (decide ((k, kd) = (k', kd'))) as [[= <- <-]|Hne].
    + exists ts. rewrite lookup_insert_eq. split; [done|].
      apply elem_of_cons in Hin as [[= ->] | Hin]; [lia|].
      by apply Hpast.
    + rewrite lookup_insert_ne by done.
      apply elem_of_cons in Hin as [[= <- <- <-] | Hin]; [done|].
      by apply I1.
  - intros key last Hlast m Hm.
    destruct (decide ((k, kd) = key)) as [<-|Hne].
    + rewrite lookup_insert_eq in Hlast. injection Hlast as <-.
      apply clock_monotone. lia.
    + rewrite lookup_insert_ne in Hlast by done.
      apply (I2 _ _ Hlast). lia.
  - split; [|exact I3]. intros a Ha. by apply Hpast.
Qed.

Lemma fire_keeps_when_due c lab_id thr sid v k w :
  Py.hashable lab_id = Ok k →
  cooled E w → due E k (kind c) w →
  cooled E (after (fire E c lab_id thr sid v) w).
Proof.
  intros Hk Hcool Hdue.
  destruct (Py.get thr (kind c) JNull) as [shown|e] eqn:Hshown.
  2: { unfold after, fire, bind, lift. by rewrite Hshown. }
  unfold after at 1. rewrite (fire_run E c lab_id thr sid v shown w Hshown).
  cbv zeta. set (w0 := count_look _).
  change ((bind ?m ?f w0).2) with (after (bind m f) w0).
  rewrite after_bind.
  set (sends := deliver E _ _ _).
  destruct (deliver_inert (size (KNOWN_CHATS w0)) (iteration E (KNOWN_CHATS w0))
              (Message lab_id (quantity c) v (above c) shown sid) w0)
    as (Hl & Hc & Hj).
  fold sends in Hl, Hc, Hj.
  assert (Hcool' : cooled E (after sends w0)).
  { apply (cooled_transfer w); [done | by rewrite Hc | done | done]. }
  assert (Hdue' : due E k (kind c) (after sends w0)).
  { destruct Hdue as (n & Hn & Hd). exists n. by rewrite Hc, Hl. }
  destruct (outcome sends w0); [|exact Hcool'].
  unfold after at 1. rewrite (track_alert_run E _ _ _ _ Hk). simpl.
  by apply track_keeps_when_due.
Qed.

(** The decision and the firing it guards keep the invariant. *)
Lemma alert_keeps c lab_id thr sid v :
  respects (keeps E) (alert E c lab_id thr sid v).
Proof.
  intros w Hcool. unfold alert. rewrite after_bind. unfold outcome, after at 2.
  destruct (Py.hashable lab_id) as [k|e] eqn:Hk.
  - rewrite (should_alert_run E _ _ _ _ Hk). simpl.
    assert (Hcool' : cooled E (tick_clock w)).
    { apply (cooled_transfer w); simpl; [done | lia | done | done]. }
    destruct (_ >=? _) eqn:Hgeb; [|exact Hcool'].
    apply (fire_keeps_when_due _ _ _ _ _ k); [done | done |].
    exists (clock_reads w). simpl. split; [lia|].
    rewrite Z.geb_leb in Hgeb. by apply Z.leb_le.
  - unfold after. by rewrite (should_alert_unhashable E _ _ _ _ Hk).
Qed.

(** Every run of the loop from process start keeps the invariant. *)
Lemma poll_alerts_cooled ticks : cooled E (after (poll_alerts E ticks) boot).
Proof.
  apply (poll_alerts_respects (keeps E) keeps_refl keeps_trans E
           alert_keeps sleep_keeps get_keeps join_keeps ticks boot).
  split; [|split]; simpl; [|done..].
  intros k kd ts Hin. by apply elem_of_nil in Hin.
Qed.

End Cooldown.

(** In a spaced list of firings, the timestamps of one pair lie at least
    the cooldown apart, the newer above the older. *)
Lemma spaced_times cooldown lab kd l : spaced cooldown l →
  ∀ i j a b, (i < j)%nat →
    omap (time_of lab kd) l !! i = Some b →
    omap (time_of lab kd) l !! j = Some a →
    cooldown ≤ b - a.
Proof.
  induction l as [|[[k kd'] ts] older IH]; intros Hsp i j a b Hij Hb Ha.
  - done.
  - destruct Hsp as [Hhead Hrest]. simpl in Hb, Ha.
    unfold time_of at 1 in Hb. unfold time_of at 1 in Ha. simpl in Hb, Ha.
    destruct (bool_decide ((k, kd') = (lab, kd))) eqn:Hsel.
    + apply bool_decide_eq_true_1 in Hsel as [= -> ->].
      destruct j as [|j]; [lia|]. simpl in Ha.
      destruct i as [|i].
      * injection Hb as <-. apply Hhead.
        apply list_elem_of_lookup_2 in Ha.
        apply list_elem_of_omap in Ha as ([[k1 kd1] ts1] & Hin & Hsel).
        unfold time_of in Hsel. simpl in Hsel.
        destruct (bool_decide _) eqn:Hdec in Hsel; [|done].
        apply bool_decide_eq_true_1 in Hdec as [= -> ->].
        by injection Hsel as <-.
      * simpl in Hb. apply (IH Hrest i j); [lia | done | done].
    + by apply (IH Hrest i j).
Qed.

(** C2 (amended). In every run of the poll loop from process start, on a
    clock that does not run backwards, the timestamps written down for
    one (lab, kind) pair lie at least the cooldown apart: of any two of
    them, the later one is at least the cooldown after the earlier one,
    however many cycles saw a violating reading in between, whichever
    deliveries failed and whichever chats joined meanwhile. *)
Theorem firings_keep_cooldown (E : env) ticks lab kd i j a b :
  monotone (time_time E) →
  let w := after (poll_alerts E ticks) boot in
  (i < j)%nat →
  firing_times lab kd w !! i = Some a →
  firing_times lab kd w !! j = Some b →
  ALERT_COOLDOWN_SEC E ≤ b - a ∧ ALERT_COOLDOWN_SEC E ≤ Z.abs (b - a).
Proof.
  intros Hmono w Hij Ha Hb.
  assert (Hgap : ALERT_COOLDOWN_SEC E ≤ b - a).
  { destruct (poll_alerts_cooled E Hmono ticks) as (_ & _ & Hsp).
    fold w in Hsp. unfold firing_times in Ha, Hb.
    apply reverse_lookup_Some in Ha as [Ha Hi].
    apply reverse_lookup_Some in Hb as [Hb Hj].
    eapply (spaced_times _ lab kd _ Hsp); [|exact Hb|exact Ha]. lia. }
  split; [exact Hgap | lia].
Qed.

(** ** The scenarios of the specification, and where the code departs *)

Module Scenario.

Import Sample.

(** Lab "L1" with [t_high] 30 reads 35 at [T0], again 10 s later and
    again 301 s later: the first and the third poll fire, the second is
    suppressed. *)
Example L1_fires_twice :
  firings (after (poll_alerts scenario three_polls) boot)
  = [(Py.KStr "L1", "t_high"%string, T0);
     (Py.KStr "L1", "t_high"%string, T0 + 301)] ∧
  length (deliveries (after (poll_alerts scenario three_polls) boot)) = 2%nat ∧
  outcome (poll_alerts scenario three_polls) boot = Ok tt.
Proof. by vm_compute. Qed.

(** C1, as stated, fails: lab "L2" has no bound configured and reads
    1000 and 1000; the cycle fires temperature-high and humidity-high
    and sends a message for each. *)
Lemma no_bounds_yet_fires :
  Py.get L2 "thresholds" JNull = Ok (JObj []) ∧
  firings (after (poll_cycle (E0 T0) (Body (status [L2]))) one_chat)
  = [(Py.KStr "L2", "t_high"%string, T0 + 1);
     (Py.KStr "L2", "h_high"%string, T0 + 3)] ∧
  map fst (deliveries (after (poll_cycle (E0 T0) (Body (status [L2]))) one_chat))
  = [7; 7].
Proof. by vm_compute. Qed.

(** C3, as stated, fails: the process has just started, the clock reads
    [T0] as it did at start, the pair never fired, and the decision is
    to fire: the first poll sends the alert. *)
Lemma fires_right_after_start :
  let started := time_time (E0 T0) 0 in
  _last_alert boot !! (Py.KStr "L1", "t_high"%string) = None ∧
  time_time (E0 T0) (clock_reads boot) - started < ALERT_COOLDOWN_SEC (E0 T0) ∧
  outcome (should_alert (E0 T0) (JStr "L1") "t_high") boot = Ok true ∧
  firings (after (poll_alerts (E0 T0) [Tick [7] (Body (status [L1]))]) boot)
  = [(Py.KStr "L1", "t_high"%string, T0 + 1)].
Proof. by vm_compute. Qed.

(** C2, as stated, fails on a clock that is set back: the second poll
    reads [T0 + 300] for the decision, which is to fire, and [T0 + 299]
    for the timestamp it writes, 299 s after the first one with a
    cooldown of 300 s. *)
Lemma clock_set_back_breaks_the_spacing :
  let ticks := [Tick [7] (Body (status [L1])); Tick [] (Body (status [L1]))] in
  let w := after (poll_alerts set_back ticks) boot in
  outcome (poll_alerts set_back ticks) boot = Ok tt ∧
  firing_times (Py.KStr "L1") "t_high" w = [T0; T0 + 299] ∧
  (T0 + 299) - T0 < ALERT_COOLDOWN_SEC set_back.
Proof. by vm_compute. Qed.


(** With a cooldown of one second and a clock that moves on by a second
    at each reading, both sensors of "L3" fire in the one cycle. *)
Example short_cooldown_fires_twice :
  let w := after (poll_cycle brief (Body (status [L3]))) one_chat in
  firings w = [(Py.KStr "L3", "t_high"%string, T0 + 1);
               (Py.KStr "L3", "t_high"%string, T0 + 3)] ∧
  map (λ d, (d.1, msg_sensor d.2)) (deliveries w)
  = [(7, JStr "s1"); (7, JStr "s2")].
Proof. by vm_compute. Qed.

(** C5, as stated, fails: with recipients 7 and 8, of which the set
    yields 8 first, and a first delivery that raises, the cycle ends in
    the exception: chat 7, whose delivery would have returned, is sent
    nothing, and the timestamp of the pair is not written although the
    decision to fire was made. *)
Lemma failed_delivery_stops_the_pass :
  let w := after (poll_cycle flaky (Body (status [L1]))) two_chats in
  iteration flaky (KNOWN_CHATS two_chats) = [8; 7] ∧
  sendMessage_returns flaky 1 = true ∧
  outcome (should_alert flaky (JStr "L1") "t_high")
          (record (Fetched "status") two_chats) = Ok true ∧
  outcome (poll_cycle flaky (Body (status [L1]))) two_chats
  = Raise DeliveryError ∧
  deliveries w = [] ∧
  _last_alert w !! (Py.KStr "L1", "t_high"%string) = None.
Proof. by vm_compute. Qed.

(** Chat 8 greets the bot while the alert for "L1" is on its way to
    chat 7: the next step of the iteration raises [RuntimeError]. Chat 7
    has its message, no delivery has failed, and the timestamp of the
    pair is not written; the loop ends there. *)
Example joining_chat_stops_the_pass :
  let w := after (poll_cycle (joining 2 8) (Body (status [L1]))) one_chat in
  outcome (poll_cycle (joining 2 8) (Body (status [L1]))) one_chat
  = Raise RuntimeError ∧
  map fst (deliveries w) = [7] ∧
  firings w = [] ∧
  _last_alert w !! (Py.KStr "L1", "t_high"%string) = None ∧
  KNOWN_CHATS w = {[ 7; 8 ]}.
Proof. by vm_compute. Qed.

(** Chat 8 greets the bot between the two firings of a cycle: it is
    sent the second alert of the cycle and not the first. *)
Example late_chat_gets_later_alerts :
  let w := after (poll_cycle (joining 3 8) (Body (status [L2]))) one_chat in
  outcome (poll_cycle (joining 3 8) (Body (status [L2]))) one_chat = Ok tt ∧
  map (λ d, (d.1, msg_quantity d.2)) (deliveries w)
  = [(7, "temp"%string); (8, "humidity"%string); (7, "humidity"%string)] ∧
  length (firings w) = 2%nat.
Proof. by vm_compute. Qed.



End Scenario.

(** ** The theorems at sample inputs *)

Module Witness.

Import Sample.

Lemma scenario_clock_monotone : monotone scenario_clock.
Proof.
  intros i j Hij. unfold scenario_clock, T0.
  destruct i as [|[|[|i]]], j as [|[|[|j]]]; lia.
Qed.

Lemma absent_bound_uses_fallback_witness :
  t_high ∈ checks ∧
  Py.assoc (kind t_high) [] = None ∧
  ((Qc_of_Z (-999) ≤ Qc_of_Z 35)%Qc ∧ (Qc_of_Z 35 ≤ Qc_of_Z 999)%Qc) ∧
  violates t_high (JObj []) (JInt 1000) = Ok true ∧
  check_bound (E0 T0) t_high (JStr "L2") (JObj []) (JStr "s1") (JInt 35)
    one_chat = (Ok tt, one_chat).
Proof.
  assert (H1 : t_high ∈ checks) by (unfold checks; repeat constructor).
  assert (H2 : (Qc_of_Z (-999) ≤ Qc_of_Z 35)%Qc ∧ (Qc_of_Z 35 ≤ Qc_of_Z 999)%Qc)
    by (split; by vm_compute).
  split; [exact H1|]. split; [reflexivity|]. split; [exact H2|].
  split.
  - exact (proj1 (absent_bound_uses_fallback (E0 T0) t_high (JStr "L2") []
                    (JStr "s1") (Qc_of_Z 1000) one_chat H1 eq_refl)).
  - exact (proj2 (absent_bound_uses_fallback (E0 T0) t_high (JStr "L2") []
                    (JStr "s1") (Qc_of_Z 35) one_chat H1 eq_refl) H2).
Defined.

Lemma firings_keep_cooldown_witness :
  monotone (time_time scenario) ∧
  firing_times (Py.KStr "L1") "t_high"
    (after (poll_alerts scenario three_polls) boot) = [T0; T0 + 301] ∧
  ALERT_COOLDOWN_SEC scenario ≤ (T0 + 301) - T0.
Proof.
  split; [exact scenario_clock_monotone|]. split; [by vm_compute|].
  refine (proj1 (firings_keep_cooldown scenario three_polls
            (Py.KStr "L1") "t_high" 0 1 T0 (T0 + 301)
            scenario_clock_monotone _ _ _)).
  - lia.
  - by vm_compute.
  - by vm_compute.
Defined.

Lemma never_fired_counts_from_zero_witness :
  Py.hashable (JStr "L1") = Ok (Py.KStr "L1") ∧
  _last_alert boot !! (Py.KStr "L1", "t_high"%string) = None ∧
  outcome (should_alert (E0 T0) (JStr "L1") "t_high") boot
  = Ok (time_time (E0 T0) (clock_reads boot) - 0 >=? ALERT_COOLDOWN_SEC (E0 T0)).
Proof.
  split; [reflexivity|]. split; [reflexivity|].
  exact (proj1 (never_fired_counts_from_zero (E0 T0) (JStr "L1")
                  (Py.KStr "L1") "t_high" boot eq_refl eq_refl)).
Defined.


Lemma fire_delivers_then_tracks_witness :
  Py.get (JObj [("t_high"%string, JInt 30)]) (kind t_high) JNull = Ok (JInt 30) ∧
  Py.hashable (JStr "L1") = Ok (Py.KStr "L1") ∧
  outcome (fire (E0 T0) t_high (JStr "L1") (JObj [("t_high"%string, JInt 30)])
             (JStr "s1") (JInt 35)) two_chats = Ok tt ∧
  outcome (fire flaky t_high (JStr "L1") (JObj [("t_high"%string, JInt 30)])
             (JStr "s1") (JInt 35)) two_chats = Raise DeliveryError ∧
  outcome (fire (joining 2 9) t_high (JStr "L1")
             (JObj [("t_high"%string, JInt 30)]) (JStr "s1") (JInt 35))
          two_chats = Raise RuntimeError.
Proof.
  split; [reflexivity|]. split; [reflexivity|]. split; [|split].
  - refine (proj1 (proj1 (proj2 (fire_delivers_then_tracks (E0 T0) t_high
              (JStr "L1") (JObj [("t_high"%string, JInt 30)]) (JStr "s1")
              (JInt 35) (Py.KStr "L1") (JInt 30) two_chats eq_refl eq_refl))
              _ _)).
    + intros i chat _ Hin. by apply elem_of_nil in Hin.
    + intros i _. reflexivity.
  - refine (proj1 (proj1 (proj2 (proj2 (fire_delivers_then_tracks flaky t_high
              (JStr "L1") (JObj [("t_high"%string, JInt 30)]) (JStr "s1")
              (JInt 35) (Py.KStr "L1") (JInt 30) two_chats eq_refl eq_refl)))
              [] 8 [7] _ _ _ _)).
    + by vm_compute.
    + intros i chat _ Hin. by apply elem_of_nil in Hin.
    + intros i Hi. simpl in Hi. lia.
    + reflexivity.
  - refine (proj1 (proj2 (proj2 (proj2 (fire_delivers_then_tracks (joining 2 9)
              t_high (JStr "L1") (JObj [("t_high"%string, JInt 30)]) (JStr "s1")
              (JInt 35) (Py.KStr "L1") (JInt 30) two_chats eq_refl eq_refl)))
              [8] [7] 9 _ _ _ _ _)).
    + by vm_compute.
    + intros i chat Hi Hin. simpl in Hi.
      replace i with 0%nat in Hin by lia. by apply elem_of_nil in Hin.
    + intros i _. reflexivity.
    + simpl. constructor.
    + by vm_compute.
Defined.

Lemma should_alert_decision_witness :
  Py.hashable (JStr "L1") = Ok (Py.KStr "L1") ∧
  _last_alert fired_at_T0 !! (Py.KStr "L1", "t_high"%string) = Some T0 ∧
  (outcome (should_alert scenario (JStr "L1") "t_high") fired_at_T0 = Ok false
     ↔ time_time scenario (clock_reads fired_at_T0) - T0
       < ALERT_COOLDOWN_SEC scenario).
Proof.
  assert (Hlast : _last_alert fired_at_T0 !! (Py.KStr "L1", "t_high"%string)
                  = Some T0) by (by vm_compute).
  split; [reflexivity|]. split; [exact Hlast|].
  exact (proj1 (should_alert_decision scenario (JStr "L1") (Py.KStr "L1")
                  "t_high" T0 fired_at_T0 eq_refl Hlast)).
Defined.




End Witness.

(** ** The bookkeeping mirrors the journal *)

Lemma mirrors_transfer w w' :
  _last_alert w' = _last_alert w →
  tracked (journal w') = tracked (journal w) →
  mirrored w w'.
Proof. intros Hl Hj Hm k kd. by rewrite Hl, Hj. Qed.

Lemma mirrored_refl w : mirrored w w.
Proof. by intros H. Qed.

Lemma mirrored_trans w1 w2 w3 : mirrored w1 w2 → mirrored w2 w3 → mirrored w1 w3.
Proof. unfold mirrored. tauto. Qed.

Lemma track_alert_mirrored E lab_id kd : respects mirrored (track_alert E lab_id kd).
Proof.
  intros w Hm. unfold after, track_alert, bind, now, lift.
  destruct (Py.hashable lab_id) as [k|e]; simpl; [|by apply (mirrors_transfer w)].
  intros k' kd'. simpl. unfold time_of at 1. simpl.
  destruct (decide ((k, kd) = (k', kd'))) as [[= <- <-]|Hne].
  - rewrite lookup_insert_eq. by rewrite bool_decide_eq_true_2.
  - rewrite lookup_insert_ne by done.
    rewrite bool_decide_eq_false_2 by done. apply Hm.
Qed.

Lemma poll_alerts_mirrored E ticks : respects mirrored (poll_alerts E ticks).
Proof.
  apply poll_alerts_respects.
  - exact mirrored_refl.
  - exact mirrored_trans.
  - intros c lab_id thr sid v. apply alert_respects_steps.
    + exact mirrored_refl.
    + exact mirrored_trans.
    + intros w. by apply mirrors_transfer.
    + intros w. by apply mirrors_transfer.
    + intros chat msg w. destruct (send_inert E chat msg w) as (Hl & _ & Hj).
      by apply mirrors_transfer.
    + apply track_alert_mirrored.
  - intros secs w. unfold after, sleep. destruct (bool_decide _); simpl.
    + apply mirrored_refl.
    + by apply mirrors_transfer.
  - intros ep r w. by apply mirrors_transfer.
  - intros chat w. by apply mirrors_transfer.
Qed.

(** X1. In every run of the poll loop from process start, whatever the
    registry answers and whichever deliveries fail, the entry of a (lab,
    kind) pair in [_last_alert] is the timestamp of the latest firing
    written down for the pair, and a pair that never fired has no entry. *)
Theorem last_alert_is_latest_firing (E : env) ticks k kd :
  _last_alert (after (poll_alerts E ticks) boot) !! (k, kd)
  = last (firing_times k kd (after (poll_alerts E ticks) boot)).
Proof.
  unfold firing_times. rewrite last_reverse.
  apply (poll_alerts_mirrored E ticks boot). intros k' kd'. reflexivity.
Qed.
(** ** Who is sent what *)

(** One step of the iteration. *)
Lemma deliver_step E used msg rest w :
  deliver E used rest msg w
  = let w1 := count_look (add_chats (arrivals E (looks w)) w) in
    if negb (size (KNOWN_CHATS w1) =? used)%nat then (Raise RuntimeError, w1)
    else match rest with
         | [] => (Ok tt, w1)
         | c :: rest' =>
             if sendMessage_returns E (send_calls w1)
             then deliver E used rest' msg (record (Sent c msg) (count_send w1))
             else (Raise DeliveryError, count_send w1)
         end.
Proof.
  destruct rest as [|c rest]; cbn [deliver];
    unfold bind at 1, look; cbv zeta; cbn [fst snd];
    (destruct (negb _); [reflexivity|]); [reflexivity|].
  unfold bind, sendMessage. by destruct (sendMessage_returns _ _).
Qed.

(** What the deliveries of one firing add to the journal: the message,
    to the chats the iteration yielded before it ended, and to all of
    its chats when it came to its end. *)
Lemma deliver_journal E used msg rest : ∀ w,
  let w' := after (deliver E used rest msg) w in
  KNOWN_CHATS w ⊆ KNOWN_CHATS w' ∧
  ∃ served post, rest = served ++ post ∧
    journal w' = reverse (map (λ chat, Sent chat msg) served) ++ journal w ∧
    (outcome (deliver E used rest msg) w = Ok tt → post = []).
Proof.
  unfold after, outcome.
  induction rest as [|c rest IH]; intros w; rewrite deliver_step; cbv zeta;
    set (w1 := count_look (add_chats (arrivals E (looks w)) w));
    (assert (Hsub : KNOWN_CHATS w ⊆ KNOWN_CHATS w1)
       by apply union_subseteq_r);
    destruct (negb _); cbn [fst snd].
  - split; [exact Hsub|]. by exists [], [].
  - split; [exact Hsub|]. by exists [], [].
  - split; [exact Hsub|]. by exists [], (c :: rest).
  - destruct (sendMessage_returns E (send_calls w1)); cbn [fst snd].
    + destruct (IH (record (Sent c msg) (count_send w1)))
        as (Hk & served & post & -> & Hj & Hend).
      split; [etrans; [exact Hsub | exact Hk]|].
      exists (c :: served), post. split; [done|]. split; [|exact Hend].
      rewrite Hj. simpl. by rewrite reverse_cons, <- app_assoc.
    + split; [exact Hsub|]. by exists [], (c :: rest).
Qed.

(** What a firing adds to the journal: the message to chats of the set
    as it was when the iterator was made and, when every one of them has
    been served, the firing. *)
Lemma fire_journal E c lab_id thr sid v k shown w :
  Py.get thr (kind c) JNull = Ok shown →
  Py.hashable lab_id = Ok k →
  let w' := after (fire E c lab_id thr sid v) w in
  let K := list_to_set (arrivals E (looks w)) ∪ KNOWN_CHATS w in
  let msg := Message lab_id (quantity c) v (above c) shown sid in
  K ⊆ KNOWN_CHATS w' ∧
  ∃ served post, iteration E K = served ++ post ∧
    (journal w' = reverse (map (λ chat, Sent chat msg) served) ++ journal w ∨
     post = [] ∧ ∃ ts,
       journal w' = Tracked k (kind c) ts
                    :: reverse (map (λ chat, Sent chat msg) served) ++ journal w).
Proof.
  intros Hshown Hk w' K msg.
  set (w0 := count_look (add_chats (arrivals E (looks w)) w)).
  assert (Hrun : w' = after (let* _ := deliver E (size K) (iteration E K) msg in
                             track_alert E lab_id (kind c)) w0).
  { subst w'. unfold after.
    by rewrite (fire_run E c lab_id thr sid v shown w Hshown). }
  rewrite after_bind in Hrun.
  destruct (deliver_journal E (size K) msg (iteration E K) w0)
    as (Hsub & served & post & Hsplit & Hj & Hend).
  destruct (outcome _ w0) as [[]|e].
  - unfold after at 1 in Hrun. rewrite (track_alert_run E _ _ _ _ Hk) in Hrun.
    rewrite Hrun. cbn [snd journal KNOWN_CHATS record store tick_clock].
    split; [exact Hsub|]. exists served, post. split; [exact Hsplit|].
    right. split; [by apply Hend|]. eexists. by rewrite Hj.
  - rewrite Hrun. split; [exact Hsub|]. exists served, post.
    split; [exact Hsplit|]. by left.
Qed.

Lemma fire_no_bound E c lab_id thr sid v e w :
  Py.get thr (kind c) JNull = Raise e →
  fire E c lab_id thr sid v w = (Raise e, w).
Proof. intros Hshown. unfold fire, bind, lift. by rewrite Hshown. Qed.

Lemma addressed_refl w : addressed w w.
Proof.
  split; [done|]. exists []. split; [done|]. intros chat m Hin.
  by apply elem_of_nil in Hin.
Qed.

Lemma addressed_trans w1 w2 w3 :
  addressed w1 w2 → addressed w2 w3 → addressed w1 w3.
Proof.
  intros (Hc1 & new1 & Hj1 & Hs1) (Hc2 & new2 & Hj2 & Hs2).
  split; [by etrans|]. exists (new2 ++ new1).
  split; [by rewrite Hj2, Hj1, app_assoc|].
  intros chat m Hin. rewrite sent_app in Hin.
  apply elem_of_app in Hin as [Hin | Hin]; [by eauto|].
  apply Hc2. by eauto.
Qed.

Lemma addressed_quiet w w' new :
  KNOWN_CHATS w ⊆ KNOWN_CHATS w' →
  journal w' = new ++ journal w →
  sent new = [] →
  addressed w w'.
Proof.
  intros Hc Hj Hs. split; [done|]. exists new. split; [done|].
  intros chat m Hin. rewrite Hs in Hin. by apply elem_of_nil in Hin.
Qed.

Lemma alert_addressed E c lab_id thr sid v :
  respects addressed (alert E c lab_id thr sid v).
Proof.
  intros w. unfold after, alert, bind.
  destruct (Py.hashable lab_id) as [k|e] eqn:Hk.
  2:{ rewrite (should_alert_unhashable E _ _ _ _ Hk). apply addressed_refl. }
  rewrite (should_alert_run E _ _ _ _ Hk).
  destruct (_ >=? _); [|by apply (addressed_quiet _ _ [])].
  destruct (Py.get thr (kind c) JNull) as [shown|e] eqn:Hshown.
  2:{ rewrite (fire_no_bound E _ _ _ _ _ _ _ Hshown).
      by apply (addressed_quiet _ _ []). }
  destruct (fire_journal E c lab_id thr sid v k shown (tick_clock w) Hshown Hk)
    as (Hsub & served & post & Hsplit & Hj).
  cbv zeta in Hsub, Hsplit, Hj. unfold after in Hsub, Hj.
  set (w' := (fire E c lab_id thr sid v (tick_clock w)).2) in *.
  assert (Hserved : ∀ chat, chat ∈ served → chat ∈ KNOWN_CHATS w').
  { intros chat Hin. apply Hsub. apply (elem_of_iteration E).
    rewrite Hsplit. apply elem_of_app. by left. }
  assert (Hgrow : KNOWN_CHATS w ⊆ KNOWN_CHATS w').
  { etrans; [|exact Hsub]. apply union_subseteq_r. }
  split; [exact Hgrow|].
  destruct Hj as [Hj | (_ & ts & Hj)];
    [eexists | eexists (_ :: _)]; (split; [exact Hj|]);
    intros chat m Hin; rewrite ?sent_cons_tracked, sent_reverse_map in Hin;
    apply elem_of_reverse, list_elem_of_fmap in Hin as (c' & [= -> ->] & Hin);
    by apply Hserved.
Qed.

Lemma poll_cycle_addressed E r : respects addressed (poll_cycle E r).
Proof.
  apply poll_cycle_respects.
  - exact addressed_refl.
  - exact addressed_trans.
  - apply alert_addressed.
  - intros secs w. unfold after, sleep. destruct (bool_decide _); simpl.
    + apply addressed_refl.
    + by apply (addressed_quiet _ _ [Slept secs]).
  - intros ep r' w. by apply (addressed_quiet _ _ [Fetched ep]).
Qed.

(** X2. Whatever the registry answers, a cycle of the loop sends alert
    messages to chats of [KNOWN_CHATS] only: every chat that is sent a
    message was a recipient when the cycle started or has been added by
    the handler thread during the cycle, and is a recipient when the
    cycle ends. When the handler thread adds none, every message goes to
    a recipient of the start. *)
Theorem alerts_go_to_known_chats (E : env) r w :
  let w' := after (poll_cycle E r) w in
  KNOWN_CHATS w' = KNOWN_CHATS w ∪ arrived E (looks w) (looks w') ∧
  ∃ ds, deliveries w' = deliveries w ++ ds ∧
        (∀ chat m, (chat, m) ∈ ds → chat ∈ KNOWN_CHATS w') ∧
        (undisturbed E → ∀ chat m, (chat, m) ∈ ds → chat ∈ KNOWN_CHATS w).
Proof.
  intros w'.
  destruct (poll_cycle_framed E r w) as (_ & Hc & _). fold w' in Hc.
  destruct (poll_cycle_addressed E r w) as (_ & new & Hj & Hs).
  fold w' in Hj, Hs. split; [exact Hc|].
  exists (reverse (sent new)).
  assert (Hin : ∀ chat m, (chat, m) ∈ reverse (sent new) →
                          chat ∈ KNOWN_CHATS w').
  { intros chat m Hin. apply (Hs chat m). by apply elem_of_reverse. }
  split; [|split].
  - unfold deliveries. by rewrite Hj, sent_app, reverse_app.
  - exact Hin.
  - intros Hnone chat m Hd. apply Hin in Hd.
    rewrite Hc, (arrived_undisturbed _ _ _ Hnone) in Hd.
    by rewrite (right_id_L ∅ (∪)) in Hd.
Qed.


(** ** Every recipient, every firing *)

Lemma deliveries_to_app chat l1 l2 :
  deliveries_to chat (l1 ++ l2)
  = (deliveries_to chat l1 + deliveries_to chat l2)%nat.
Proof. unfold deliveries_to. by rewrite filter_app, length_app. Qed.

Lemma deliveries_to_reverse chat l :
  deliveries_to chat (reverse l) = deliveries_to chat l.
Proof. unfold deliveries_to. by rewrite filter_reverse, length_reverse. Qed.

(** A chat of a duplicate-free iteration is served once. *)
Lemma deliveries_to_once (msg : message) chats chat :
  NoDup chats → chat ∈ chats →
  deliveries_to chat (map (λ c, (c, msg)) chats) = 1%nat.
Proof.
  unfold deliveries_to.
  induction chats as [|c chats IH]; intros Hnd Hin.
  - by apply elem_of_nil in Hin.
  - apply NoDup_cons in Hnd as [Hc Hnd]. simpl.
    destruct (decide (c = chat)) as [->|Hne].
    + rewrite filter_cons_True by done. simpl. f_equal.
      clear IH Hin Hnd. induction chats as [|c' chats IH]; [done|].
      simpl. rewrite filter_cons_False.
      * apply IH. intros Hin. apply Hc. by right.
      * simpl. intros ->. apply Hc. by left.
    + rewrite filter_cons_False by done.
      apply IH; [done|]. apply elem_of_cons in Hin as [->|Hin]; done.
Qed.

Lemma announced_refl w : announced w w.
Proof. split; [done|]. by exists []. Qed.

Lemma announced_trans w1 w2 w3 :
  announced w1 w2 → announced w2 w3 → announced w1 w3.
Proof.
  intros (Hc1 & new1 & Hj1 & Hn1) (Hc2 & new2 & Hj2 & Hn2).
  split; [congruence|]. exists (new2 ++ new1).
  split; [by rewrite Hj2, Hj1, app_assoc|].
  intros chat Hin.
  rewrite sent_app, tracked_app, deliveries_to_app, length_app.
  rewrite (Hn1 chat Hin), (Hn2 chat); [done|]. by rewrite Hc1.
Qed.

Lemma announced_quiet w w' new :
  KNOWN_CHATS w' = KNOWN_CHATS w →
  journal w' = new ++ journal w →
  sent new = [] → tracked new = [] →
  announced w w'.
Proof.
  intros Hc Hj Hs Ht. split; [done|]. exists new. split; [done|].
  intros chat _. by rewrite Hs, Ht.
Qed.

(** A set yields no item twice. *)
Lemma iteration_NoDup E K : NoDup (iteration E K).
Proof. rewrite iteration_permutation. apply NoDup_elements. Qed.

Lemma heard_refl w : heard w w.
Proof. split; [done|]. exists []. split; [done|]. intros chat _. simpl. lia. Qed.

Lemma heard_trans w1 w2 w3 : heard w1 w2 → heard w2 w3 → heard w1 w3.
Proof.
  intros (Hc1 & new1 & Hj1 & Hn1) (Hc2 & new2 & Hj2 & Hn2).
  split; [by etrans|]. exists (new2 ++ new1).
  split; [by rewrite Hj2, Hj1, app_assoc|].
  intros chat Hin.
  rewrite sent_app, tracked_app, deliveries_to_app, length_app.
  specialize (Hn1 chat Hin). specialize (Hn2 chat (Hc1 _ Hin)). lia.
Qed.

Lemma heard_quiet w w' new :
  KNOWN_CHATS w ⊆ KNOWN_CHATS w' →
  journal w' = new ++ journal w →
  tracked new = [] →
  heard w w'.
Proof.
  intros Hc Hj Ht. split; [done|]. exists new. split; [done|].
  intros chat _. rewrite Ht. simpl. lia.
Qed.

(** A firing is written down only when the iteration has come to its
    end: every chat of the set has been sent the message by then. *)
Lemma alert_heard E c lab_id thr sid v :
  respects heard (alert E c lab_id thr sid v).
Proof.
  intros w. unfold after, alert, bind.
  destruct (Py.hashable lab_id) as [k|e] eqn:Hk.
  2:{ rewrite (should_alert_unhashable E _ _ _ _ Hk). apply heard_refl. }
  rewrite (should_alert_run E _ _ _ _ Hk).
  destruct (_ >=? _); [|by apply (heard_quiet _ _ [])].
  destruct (Py.get thr (kind c) JNull) as [shown|e] eqn:Hshown.
  2:{ rewrite (fire_no_bound E _ _ _ _ _ _ _ Hshown).
      by apply (heard_quiet _ _ []). }
  destruct (fire_journal E c lab_id thr sid v k shown (tick_clock w) Hshown Hk)
    as (Hsub & served & post & Hsplit & Hj).
  cbv zeta in Hsub, Hsplit, Hj. unfold after in Hsub, Hj.
  set (w' := (fire E c lab_id thr sid v (tick_clock w)).2) in *.
  set (K := list_to_set _ ∪ KNOWN_CHATS (tick_clock w)) in *.
  assert (Hstart : KNOWN_CHATS w ⊆ K) by apply union_subseteq_r.
  assert (Hgrow : KNOWN_CHATS w ⊆ KNOWN_CHATS w') by (by etrans).
  destruct Hj as [Hj | (-> & ts & Hj)].
  - apply (heard_quiet _ _ _ Hgrow Hj), tracked_reverse_sent.
  - split; [exact Hgrow|]. eexists (_ :: _). split; [exact Hj|].
    intros chat Hin.
    rewrite sent_cons_tracked, sent_reverse_map, deliveries_to_reverse.
    rewrite tracked_cons_tracked, tracked_reverse_sent.
    rewrite app_nil_r in Hsplit. rewrite <- Hsplit.
    rewrite deliveries_to_once; [done | apply iteration_NoDup |].
    by apply elem_of_iteration, Hstart.
Qed.

Lemma poll_cycle_heard E r : respects heard (poll_cycle E r).
Proof.
  apply poll_cycle_respects.
  - exact heard_refl.
  - exact heard_trans.
  - apply alert_heard.
  - intros secs w. unfold after, sleep. destruct (bool_decide _); simpl.
    + apply heard_refl.
    + by apply (heard_quiet _ _ [Slept secs]).
  - intros ep r' w. by apply (heard_quiet _ _ [Fetched ep]).
Qed.

Section Reliable.

Variable E : env.
Hypothesis delivers : ∀ n, sendMessage_returns E n = true.
Hypothesis alone : undisturbed E.

Lemma look_alone w :
  count_look (add_chats (arrivals E (looks w)) w) = count_look w.
Proof.
  unfold count_look, add_chats. rewrite alone. simpl. f_equal.
  apply (left_id_L ∅ (∪)).
Qed.

Lemma calm_alone K from count : calm E K from count.
Proof. intros i chat _ Hin. rewrite alone in Hin. by apply elem_of_nil in Hin. Qed.

Lemma alert_announced c lab_id thr sid v :
  respects announced (alert E c lab_id thr sid v).
Proof.
  intros w. unfold after, alert, bind.
  destruct (Py.hashable lab_id) as [k|e] eqn:Hk.
  2:{ rewrite (should_alert_unhashable E _ _ _ _ Hk). apply announced_refl. }
  rewrite (should_alert_run E _ _ _ _ Hk).
  destruct (_ >=? _); [|by apply (announced_quiet _ _ [])].
  destruct (Py.get thr (kind c) JNull) as [shown|e] eqn:Hshown.
  - rewrite (fire_run E c lab_id thr sid v shown _ Hshown). cbv zeta.
    rewrite look_alone. unfold bind.
    rewrite (deliver_all_return E _ _ _ (count_look (tick_clock w)) eq_refl
               (calm_alone _ _ _) (λ i _, delivers _)).
    rewrite (track_alert_run E _ _ _ _ Hk).
    cbn [snd]. split; [done|].
    eexists (Tracked k (kind c) _ :: reverse (map _ (iteration E (KNOWN_CHATS w)))).
    split; [reflexivity|]. intros chat Hin.
    rewrite sent_cons_tracked, sent_reverse_map, deliveries_to_reverse.
    rewrite tracked_cons_tracked, tracked_reverse_sent. simpl.
    apply deliveries_to_once; [apply iteration_NoDup|].
    by apply elem_of_iteration.
  - rewrite (fire_no_bound E _ _ _ _ _ _ _ Hshown). cbn [snd].
    by apply (announced_quiet _ _ []).
Qed.

Lemma poll_cycle_announced r : respects announced (poll_cycle E r).
Proof.
  apply poll_cycle_respects.
  - exact announced_refl.
  - exact announced_trans.
  - exact alert_announced.
  - intros secs w. unfold after, sleep. destruct (bool_decide _); simpl.
    + apply announced_refl.
    + by apply (announced_quiet _ _ [Slept secs]).
  - intros ep r' w. by apply (announced_quiet _ _ [Fetched ep]).
Qed.

End Reliable.

(** X3. A cycle of the loop writes down no firing of which a chat that
    was a recipient when the cycle started has not been sent the
    message: each such chat is sent at least one message for each firing
    written, whatever fails. When the chat service delivers every message
    and the handler thread adds no chat meanwhile, there is exactly one
    message for each firing, also when the cycle ends in an exception. *)
Theorem every_recipient_hears_every_firing (E : env) r w :
  let w' := after (poll_cycle E r) w in
  ∃ ds fs,
    deliveries w' = deliveries w ++ ds ∧
    firings w' = firings w ++ fs ∧
    (∀ chat, chat ∈ KNOWN_CHATS w →
       (length fs ≤ deliveries_to chat ds)%nat) ∧
    ((∀ n, sendMessage_returns E n = true) → undisturbed E →
     ∀ chat, chat ∈ KNOWN_CHATS w → deliveries_to chat ds = length fs).
Proof.
  intros w'.
  destruct (poll_cycle_heard E r w) as (_ & new & Hj & Hn). fold w' in Hj.
  exists (reverse (sent new)), (reverse (tracked new)).
  split; [|split; [|split]].
  - unfold deliveries. by rewrite Hj, sent_app, reverse_app.
  - unfold firings. by rewrite Hj, tracked_app, reverse_app.
  - intros chat Hin. rewrite deliveries_to_reverse, length_reverse. by apply Hn.
  - intros Hrel Hnone chat Hin.
    destruct (poll_cycle_announced E Hrel Hnone r w) as (_ & new' & Hj' & Hn').
    fold w' in Hj'. rewrite Hj in Hj'. apply app_inv_tail in Hj' as ->.
    rewrite deliveries_to_reverse, length_reverse. by apply Hn'.
Qed.

(** ** Alerts say what was measured *)

Section Checks.

Variable R : world → world → Prop.
Hypothesis R_refl : ∀ w, R w w.
Hypothesis R_trans : ∀ w1 w2 w3, R w1 w2 → R w2 w3 → R w1 w3.
Variable E : env.
Hypothesis bound_step :
  ∀ c lab_id thr sid v, c ∈ checks → respects R (check_bound E c lab_id thr sid v).
Hypothesis sleep_step : ∀ secs, respects R (sleep secs).
Hypothesis get_step : ∀ ep r, respects R (_get ep r).

(** The loop runs the four checks of [checks] and no other. *)
Lemma check_sensor_four lab_id thr sensor :
  respects R (check_sensor E lab_id thr sensor).
Proof.
  assert (H1 : t_high ∈ checks) by (unfold checks; repeat constructor).
  assert (H2 : t_low ∈ checks) by (unfold checks; repeat constructor).
  assert (H3 : h_high ∈ checks) by (unfold checks; repeat constructor).
  assert (H4 : h_low ∈ checks) by (unfold checks; repeat constructor).
  unfold check_sensor.
  repeat (apply respects_bind;
          [exact R_trans | apply respects_lift, R_refl | intros ?]).
  apply respects_bind; [exact R_trans | |].
  - destruct (Py.is_None _); [apply respects_ret, R_refl|].
    apply respects_bind; [exact R_trans | |intros _]; by apply bound_step.
  - intros _. destruct (Py.is_None _); [apply respects_ret, R_refl|].
    apply respects_bind; [exact R_trans | |intros _]; by apply bound_step.
Qed.

Lemma poll_cycle_four r : respects R (poll_cycle E r).
Proof.
  unfold poll_cycle.
  apply respects_bind; [exact R_trans | apply respects_read, R_refl|].
  intros []; [apply sleep_step|].
  apply respects_bind; [exact R_trans | apply get_step | intros data].
  repeat (apply respects_bind;
          [exact R_trans | apply respects_lift, R_refl | intros ?]).
  apply respects_bind; [exact R_trans | | intros _; apply sleep_step].
  apply respects_for_each; [exact R_refl | exact R_trans |]. intros lab.
  unfold check_lab.
  repeat (apply respects_bind;
          [exact R_trans | apply respects_lift, R_refl | intros ?]).
  apply respects_for_each; [exact R_refl | exact R_trans |].
  intros sensor. apply check_sensor_four.
Qed.

End Checks.

Lemma vetted_refl w : vetted w w.
Proof.
  exists []. split; [done|]. split.
  - intros k kd ts Hin. by apply elem_of_nil in Hin.
  - intros chat m Hin. by apply elem_of_nil in Hin.
Qed.

Lemma vetted_trans w1 w2 w3 : vetted w1 w2 → vetted w2 w3 → vetted w1 w3.
Proof.
  intros (new1 & Hj1 & Hk1 & Hm1) (new2 & Hj2 & Hk2 & Hm2).
  exists (new2 ++ new1). split; [by rewrite Hj2, Hj1, app_assoc|]. split.
  - intros k kd ts Hin. rewrite tracked_app in Hin.
    apply elem_of_app in Hin as [Hin|Hin]; eauto.
  - intros chat m Hin. rewrite sent_app in Hin.
    apply elem_of_app in Hin as [Hin|Hin]; eauto.
Qed.

Lemma vetted_quiet w w' new :
  journal w' = new ++ journal w → sent new = [] → tracked new = [] →
  vetted w w'.
Proof.
  intros Hj Hs Ht. exists new. split; [done|]. rewrite Hs, Ht. split.
  - intros k kd ts Hin. by apply elem_of_nil in Hin.
  - intros chat m Hin. by apply elem_of_nil in Hin.
Qed.

Lemma lt_null_right v : Py.lt v JNull ≠ Ok true.
Proof. by destruct v as [| [] | | | |]. Qed.

(** A reading that passes the comparison of a check makes the message of
    the check truthful. *)
Lemma violation_is_truthful c lab_id thr sid v shown :
  c ∈ checks →
  violates c thr v = Ok true →
  Py.get thr (kind c) JNull = Ok shown →
  truthful (Message lab_id (quantity c) v (above c) shown sid).
Proof.
  intros Hc Hv Hshown. unfold truthful. simpl.
  destruct thr as [| | | | |kvs]; try discriminate.
  unfold violates, Py.get in Hv, Hshown.
  destruct (Py.assoc (kind c) kvs) as [x|]; simpl in Hv, Hshown.
  - injection Hshown as <-. destruct (Py.is_None x) eqn:Hnone; [|exact Hv].
    destruct x; try discriminate. destruct (above c).
    + unfold Py.gt in Hv. simpl in Hv. discriminate.
    + by apply lt_null_right in Hv.
  - injection Hshown as <-. simpl.
    unfold checks in Hc.
    repeat (apply elem_of_cons in Hc as [-> | Hc]); try exact Hv.
    by apply elem_of_nil in Hc.
Qed.

Lemma check_bound_vetted E c lab_id thr sid v :
  c ∈ checks → respects vetted (check_bound E c lab_id thr sid v).
Proof.
  intros Hc w. unfold after, check_bound, bind, lift.
  destruct (violates c thr v) as [[]|e] eqn:Hv; try apply vetted_refl.
  unfold alert, bind.
  destruct (Py.hashable lab_id) as [k|e] eqn:Hk.
  2:{ rewrite (should_alert_unhashable E _ _ _ _ Hk). apply vetted_refl. }
  rewrite (should_alert_run E _ _ _ _ Hk).
  destruct (_ >=? _); [|by apply (vetted_quiet _ _ [])].
  destruct (Py.get thr (kind c) JNull) as [shown|e] eqn:Hshown.
  2:{ rewrite (fire_no_bound E _ _ _ _ _ _ _ Hshown).
      by apply (vetted_quiet _ _ []). }
  destruct (fire_journal E c lab_id thr sid v k shown (tick_clock w) Hshown Hk)
    as (_ & served & post & _ & Hj).
  cbv zeta in Hj. unfold after in Hj.
  set (w' := (fire E c lab_id thr sid v (tick_clock w)).2) in *.
  assert (Htrue : ∀ chat m,
            (chat, m) ∈ reverse (map (λ chat, (chat,
               Message lab_id (quantity c) v (above c) shown sid)) served) →
            truthful m).
  { intros chat m Hin.
    apply elem_of_reverse, list_elem_of_fmap in Hin as (c' & [= -> ->] & _).
    by apply (violation_is_truthful c lab_id thr). }
  destruct Hj as [Hj | (_ & ts & Hj)];
    [eexists | eexists (_ :: _)]; (split; [exact Hj|]); split.
  - intros k' kd' ts' Hin. rewrite tracked_reverse_sent in Hin.
    by apply elem_of_nil in Hin.
  - intros chat m Hin. rewrite sent_reverse_map in Hin. by eapply Htrue.
  - intros k' kd' ts' Hin.
    rewrite tracked_cons_tracked, tracked_reverse_sent in Hin.
    apply list_elem_of_singleton in Hin as [= -> -> ->].
    unfold kinds. by apply list_elem_of_fmap_2.
  - intros chat m Hin. rewrite sent_cons_tracked, sent_reverse_map in Hin.
    by eapply Htrue.
Qed.

Lemma poll_cycle_vetted E r : respects vetted (poll_cycle E r).
Proof.
  apply poll_cycle_four.
  - exact vetted_refl.
  - exact vetted_trans.
  - intros c lab_id thr sid v Hc. by apply check_bound_vetted.
  - intros secs w. unfold after, sleep. destruct (bool_decide _); simpl.
    + apply vetted_refl.
    + by apply (vetted_quiet _ _ [Slept secs]).
  - intros ep r' w. by apply (vetted_quiet _ _ [Fetched ep]).
Qed.

(** X4. Every alert message a cycle sends is truthful: the comparison it
    prints holds of the reading and the bound it prints, or, where the lab
    has no such bound and the message prints [None] for it, the reading is
    beyond the fallback 999 or -999. Every firing a cycle writes down is
    of one of the four kinds. *)
Theorem alerts_are_truthful (E : env) r w :
  ∃ ds fs,
    deliveries (after (poll_cycle E r) w) = deliveries w ++ ds ∧
    firings (after (poll_cycle E r) w) = firings w ++ fs ∧
    (∀ chat m, (chat, m) ∈ ds → truthful m) ∧
    (∀ k kd ts, (k, kd, ts) ∈ fs → kd ∈ kinds).
Proof.
  destruct (poll_cycle_vetted E r w) as (new & Hj & Hk & Hm).
  exists (reverse (sent new)), (reverse (tracked new)).
  split; [|split; [|split]].
  - unfold deliveries. by rewrite Hj, sent_app, reverse_app.
  - unfold firings. by rewrite Hj, tracked_app, reverse_app.
  - intros chat m Hin. apply (Hm chat m). by apply elem_of_reverse.
  - intros k kd ts Hin. apply (Hk k kd ts). by apply elem_of_reverse.
Qed.

(** ** Entries only move forward *)

Section Forward.

Variable E : env.
Hypothesis clock_monotone : monotone (time_time E).

Lemma advancing_refl w : advancing E w w.
Proof. split; [done|]. intros H. split; [done|]. intros key a Ha. by exists a. Qed.

Lemma advancing_trans w1 w2 w3 :
  advancing E w1 w2 → advancing E w2 w3 → advancing E w1 w3.
Proof.
  intros [Hc1 H1] [Hc2 H2]. split; [lia|]. intros H.
  destruct (H1 H) as [H' Hk1]. destruct (H2 H') as [H'' Hk2].
  split; [done|]. intros key a Ha.
  destruct (Hk1 key a Ha) as (b & Hb & Hab).
  destruct (Hk2 key b Hb) as (c & Hc & Hbc). exists c. split; [done | lia].
Qed.

(** A step that leaves the entries alone and does not rewind the count
    of clock readings. *)
Lemma advancing_still w w' :
  _last_alert w' = _last_alert w →
  (clock_reads w ≤ clock_reads w')%nat →
  advancing E w w'.
Proof.
  intros Hl Hc. split; [done|]. intros H. split.
  - intros key last Hlast n Hn. rewrite Hl in Hlast.
    apply (H key last Hlast). lia.
  - intros key a Ha. exists a. by rewrite Hl.
Qed.

Lemma track_alert_advancing lab_id kd :
  respects (advancing E) (track_alert E lab_id kd).
Proof.
  intros w. unfold after, track_alert, bind, now, lift.
  destruct (Py.hashable lab_id) as [k|e]; simpl.
  2:{ apply advancing_still; simpl; [done | lia]. }
  split; [simpl; lia|]. intros H. unfold on_time. simpl. split.
  - intros key last Hlast n Hn.
    destruct (decide ((k, kd) = key)) as [<-|Hne].
    + rewrite lookup_insert_eq in Hlast. injection Hlast as <-.
      apply clock_monotone. lia.
    + rewrite lookup_insert_ne in Hlast by done.
      apply (H key last Hlast). lia.
  - intros key a Ha.
    destruct (decide ((k, kd) = key)) as [<-|Hne].
    + exists (time_time E (clock_reads w)). rewrite lookup_insert_eq.
      split; [done|]. by apply (H _ _ Ha).
    + exists a. by rewrite lookup_insert_ne.
Qed.

Lemma poll_cycle_advancing r : respects (advancing E) (poll_cycle E r).
Proof.
  apply poll_cycle_respects.
  - exact advancing_refl.
  - exact advancing_trans.
  - intros c lab_id thr sid v. apply alert_respects_steps.
    + exact advancing_refl.
    + exact advancing_trans.
    + intros w. apply advancing_still; simpl; [done | lia].
    + intros w. by apply advancing_still.
    + intros chat msg w. destruct (send_inert E chat msg w) as (Hl & Hc & _).
      apply advancing_still; [done | lia].
    + apply track_alert_advancing.
  - intros secs w. unfold after, sleep. destruct (bool_decide _); simpl.
    + apply advancing_refl.
    + by apply advancing_still.
  - intros ep r' w. by apply advancing_still.
Qed.

End Forward.

(** X5. On a clock that does not run backwards, at any point of a run
    from process start, one more cycle of the loop removes no entry of
    [_last_alert] and moves none backwards: every entry is kept or
    replaced by a later timestamp. *)
Theorem entries_never_recede (E : env) ticks r key a :
  monotone (time_time E) →
  let w := after (poll_alerts E ticks) boot in
  _last_alert w !! key = Some a →
  ∃ b, _last_alert (after (poll_cycle E r) w) !! key = Some b ∧ a ≤ b.
Proof.
  intros Hmono w Ha.
  destruct (poll_alerts_cooled E Hmono ticks) as (_ & Htime & _).
  destruct (poll_cycle_advancing E Hmono r w) as [_ Hadv].
  destruct (Hadv Htime) as [_ Hkeep]. by apply Hkeep.
Qed.

(** ** The handler and the alert loop *)

Lemma hafter_bind {A B} (m : H A) (k : A → H B) d :
  hafter (hbind m k) d =
  match houtcome m d with
  | Fine a => hafter (k a) (hafter m d)
  | Failed _ => hafter m d
  end.
Proof.
  unfold hafter, houtcome, hbind. destruct (m d) as [[a|f] d']; reflexivity.
Qed.

Lemma houtcome_bind {A B} (m : H A) (k : A → H B) d :
  houtcome (hbind m k) d =
  match houtcome m d with
  | Fine a => houtcome (k a) (hafter m d)
  | Failed f => Failed f
  end.
Proof.
  unfold hafter, houtcome, hbind. destruct (m d) as [[a|f] d']; reflexivity.
Qed.

(** A step followed by a continuation: the relation of the whole. *)
Lemma hrespects_bind (R1 R2 R3 : desk → desk → Prop) {A B}
    (m : H A) (k : A → H B) :
  (∀ a b, R1 a b → R3 a b) →
  (∀ a b c, R1 a b → R2 b c → R3 a c) →
  hrespects R1 m → (∀ a, hrespects R2 (k a)) → hrespects R3 (hbind m k).
Proof.
  intros Hsub Hcomp Hm Hk d. rewrite hafter_bind.
  destruct (houtcome m d) as [a|f]; [|apply Hsub, Hm].
  eapply Hcomp; [apply Hm | apply Hk].
Qed.

Lemma untouched_refl d : untouched d d.
Proof. by repeat split. Qed.

Lemma untouched_trans d1 d2 d3 :
  untouched d1 d2 → untouched d2 d3 → untouched d1 d3.
Proof.
  intros (H1 & H2 & H3 & H4 & H5) (G1 & G2 & G3 & G4 & G5).
  repeat split; congruence.
Qed.

Lemma quiet_refl d : quiet d d.
Proof. split; [apply untouched_refl | done]. Qed.

Lemma quiet_trans d1 d2 d3 : quiet d1 d2 → quiet d2 d3 → quiet d1 d3.
Proof.
  intros [H1 H2] [G1 G2]. split; [by eapply untouched_trans | congruence].
Qed.

Lemma quiet_answered chat d d' : quiet d d' → answered chat d d'.
Proof.
  intros [H1 H2]. split; [done|]. exists []. split; [done|].
  split; [simpl; lia|]. intros c t Hin. by apply elem_of_nil in Hin.
Qed.

Lemma quiet_then_answered chat d1 d2 d3 :
  quiet d1 d2 → answered chat d2 d3 → answered chat d1 d3.
Proof.
  intros [H1 H2] (G1 & new & G2 & G3 & G4).
  split; [by eapply untouched_trans|]. exists new. by rewrite G2, H2.
Qed.

Lemma quiet_bind {A B} (m : H A) (k : A → H B) :
  hrespects quiet m → (∀ a, hrespects quiet (k a)) → hrespects quiet (hbind m k).
Proof. apply hrespects_bind; [done | apply quiet_trans]. Qed.

Lemma answered_bind chat {A B} (m : H A) (k : A → H B) :
  hrespects quiet m → (∀ a, hrespects (answered chat) (k a)) →
  hrespects (answered chat) (hbind m k).
Proof.
  apply hrespects_bind; [apply quiet_answered | apply quiet_then_answered].
Qed.

Lemma hret_quiet {A} (a : A) : hrespects quiet (hret a).
Proof. intros d. apply quiet_refl. Qed.

Lemma of_result_quiet {A} (r : result A) : hrespects quiet (of_result r).
Proof. intros d. apply quiet_refl. Qed.

Lemma of_attempt_quiet {A} (r : attempt A) : hrespects quiet (of_attempt r).
Proof. intros d. apply quiet_refl. Qed.

Section HandlerFrame.

Variable P : builtins.
Variable S : service.
Variable E : env.

Lemma ask_quiet q : hrespects quiet (Bot.ask S q).
Proof. intros d. by repeat split. Qed.

Lemma fetch_quiet ep : hrespects quiet (Bot.fetch S ep).
Proof.
  unfold Bot.fetch. apply quiet_bind; [apply ask_quiet|].
  intros a d. by repeat split.
Qed.

Lemma post_quiet ep payload : hrespects quiet (Bot._post S ep payload).
Proof.
  unfold Bot._post. apply quiet_bind; [apply ask_quiet|].
  intros a. apply hret_quiet.
Qed.

Lemma delete_quiet path : hrespects quiet (Bot.delete S path).
Proof.
  unfold Bot.delete. apply quiet_bind; [apply ask_quiet|].
  intros a. apply hret_quiet.
Qed.

Lemma turn_all_quiet lab_id action acts :
  hrespects quiet (Bot.turn_all P S lab_id action acts).
Proof.
  induction acts as [|act rest IH]; simpl; [apply hret_quiet|].
  apply quiet_bind; [apply of_result_quiet | intros aid].
  apply quiet_bind; [apply post_quiet | intros res].
  apply quiet_bind; [apply of_result_quiet | intros ok].
  apply quiet_bind.
  - destruct (Py.truthy ok); [apply hret_quiet|].
    apply quiet_bind; [apply of_result_quiet | intros why; apply hret_quiet].
  - intros failed. apply quiet_bind; [apply IH | intros more; apply hret_quiet].
Qed.

Lemma reply_answered chat t : hrespects (answered chat) (Bot.reply E chat t).
Proof.
  intros d. unfold hafter, Bot.reply.
  destruct (sendMessage_returns E _); simpl.
  - split; [by repeat split|]. exists [(chat, t)]. split; [done|].
    split; [simpl; lia|]. intros c t' Hin.
    apply list_elem_of_singleton in Hin. by injection Hin.
  - apply quiet_answered. by repeat split.
Qed.

Lemma report_answered chat res :
  hrespects (answered chat) (Bot.report P E chat res).
Proof.
  unfold Bot.report.
  apply answered_bind; [apply of_result_quiet | intros t; apply reply_answered].
Qed.

(** Every command but [/start] and [/help] leaves the state of the alert
    loop alone and sends at most one text, to the chat that asked. *)
Lemma dispatch_answered chat first rest :
  Bot.lower first ∉ ["/start"; "/help"]%string →
  hrespects (answered chat) (Bot.dispatch P S E chat (first :: rest)).
Proof.
  intros Hcmd. unfold Bot.dispatch.
  rewrite bool_decide_eq_false_2 by exact Hcmd.
  repeat first
    [ apply reply_answered
    | apply report_answered
    | apply answered_bind;
        [ first [ apply fetch_quiet | apply post_quiet | apply delete_quiet
                | apply of_result_quiet | apply of_attempt_quiet
                | apply turn_all_quiet ]
        | intros ? ]
    | match goal with
      | |- hrespects _ (if ?b then _ else _) => destruct b
      | |- hrespects _ (match ?x with [] => _ | _ :: _ => _ end) => destruct x
      end ].
Qed.

(** [/start] and [/help] add the chat before they answer. *)
Lemma dispatch_greeting chat first rest d :
  Bot.lower first ∈ ["/start"; "/help"]%string →
  let d' := hafter (Bot.dispatch P S E chat (first :: rest)) d in
  KNOWN_CHATS (globals d') = {[chat]} ∪ KNOWN_CHATS (globals d) ∧
  _last_alert (globals d') = _last_alert (globals d) ∧
  journal (globals d') = journal (globals d) ∧
  ∃ new, outbox d' = new ++ outbox d ∧ (length new ≤ 1)%nat ∧
         ∀ c t, (c, t) ∈ new → c = chat.
Proof.
  intros Hcmd. unfold Bot.dispatch, hafter.
  rewrite bool_decide_eq_true_2 by exact Hcmd.
  unfold hbind, on_globals, handle_start, Bot.reply. simpl.
  destruct (sendMessage_returns E _); simpl.
  - repeat split; try done. exists [(chat, Bot.help_text)].
    split; [done|]. split; [simpl; lia|]. intros c t Hin.
    apply list_elem_of_singleton in Hin. by injection Hin.
  - repeat split; try done. exists []. split; [done|].
    split; [simpl; lia|]. intros c t Hin. by apply elem_of_nil in Hin.
Qed.

(** The cases of a message. *)
Lemma handle_cases msg :
  (¬ greets P msg ∧
   hrespects (answered (chat_id msg)) (Bot.handle P S E msg)) ∨
  (greets P msg ∧
   ∃ first rest, Bot.lower first ∈ ["/start"; "/help"]%string ∧
     ∀ d, Bot.handle P S E msg d
          = Bot.dispatch P S E (chat_id msg) (first :: rest) d).
Proof.
  unfold Bot.handle, greets.
  destruct (String.eqb (content_type msg) "text") eqn:Htext; simpl.
  2:{ left. split.
      - intros [Habs _]. apply String.eqb_neq in Htext. contradiction.
      - intros d. apply quiet_answered, quiet_refl. }
  apply String.eqb_eq in Htext.
  destruct (shlex_split P (strip P (text msg))) as [[|first rest]|e] eqn:Hsplit.
  - left. split.
    + intros (_ & f & r & Hf & _). discriminate.
    + intros d. apply quiet_answered, quiet_refl.
  - destruct (decide (Bot.lower first ∈ ["/start"; "/help"]%string)) as [Hin|Hout].
    + right. split; [split; [done | by exists first, rest]|].
      by exists first, rest.
    + left. split.
      * intros (_ & f & r & Hf & Hin). injection Hf as <- <-. contradiction.
      * intros d. unfold hafter, hbind, of_result.
        apply (dispatch_answered _ _ _ Hout d).
  - left. split.
    + intros (_ & f & r & Hf & _). discriminate.
    + intros d. apply quiet_answered, quiet_refl.
Qed.

End HandlerFrame.

(** X6. Whatever the message and whatever the registry and the chat
    service do, one call of the handler leaves the cooldown entries, the
    firings and the alerts sent as they are; it removes no recipient and
    adds none but the sender; and it sends at most one text, to the
    sender. *)
Theorem handler_keeps_to_its_chat (P : builtins) (S : service) (E : env) msg d :
  let d' := hafter (Bot.handle P S E msg) d in
  _last_alert (globals d') = _last_alert (globals d) ∧
  firings (globals d') = firings (globals d) ∧
  deliveries (globals d') = deliveries (globals d) ∧
  KNOWN_CHATS (globals d) ⊆ KNOWN_CHATS (globals d') ∧
  KNOWN_CHATS (globals d') ⊆ {[chat_id msg]} ∪ KNOWN_CHATS (globals d) ∧
  ∃ new, outbox d' = new ++ outbox d ∧ (length new ≤ 1)%nat ∧
         ∀ c t, (c, t) ∈ new → c = chat_id msg.
Proof.
  intros d'. subst d'.
  destruct (handle_cases P S E msg) as [[_ Hans] | (_ & first & rest & Hcmd & Heq)].
  - destruct (Hans d) as ((Hl & Hk & _ & Ht & Hs) & Hnew).
    unfold firings, deliveries. rewrite Hl, Hk, Ht, Hs.
    repeat split; try done. apply union_subseteq_r.
  - unfold hafter. rewrite Heq.
    destruct (dispatch_greeting P S E (chat_id msg) first rest d Hcmd)
      as (Hk & Hl & Hj & Hnew).
    unfold hafter in Hk, Hl, Hj, Hnew.
    unfold firings, deliveries. rewrite Hl, Hk, Hj.
    repeat split; try done. apply union_subseteq_r.
Qed.

(** X7. A text whose first word is [/start] or [/help], in any case of
    the letters, makes its sender a recipient, also when the answer to it
    cannot be delivered; no other message changes the recipients. *)
Theorem only_greetings_register (P : builtins) (S : service) (E : env) msg d :
  let d' := hafter (Bot.handle P S E msg) d in
  (greets P msg →
   KNOWN_CHATS (globals d') = {[chat_id msg]} ∪ KNOWN_CHATS (globals d)) ∧
  (¬ greets P msg → KNOWN_CHATS (globals d') = KNOWN_CHATS (globals d)).
Proof.
  intros d'. subst d'.
  destruct (handle_cases P S E msg) as [[Hno Hans] | (Hyes & first & rest & Hcmd & Heq)].
  - split; [by intros Hyes|]. intros _. by destruct (Hans d) as ((_ & Hk & _) & _).
  - split; [|by intros Hno]. intros _. unfold hafter. rewrite Heq.
    by destruct (dispatch_greeting P S E (chat_id msg) first rest d Hcmd)
      as (Hk & _).
Qed.

(** ** Commands that never reach the registry *)

(** Decide the tests of the dispatcher on a known command name. *)
Ltac settle_test b :=
  let v := eval vm_compute in b in
  match v with
  | true => change b with true
  | false => change b with false
  end.

Ltac settle_tests :=
  repeat match goal with
  | |- context [bool_decide (?s ∈ ?l)] => settle_test (bool_decide (s ∈ l))
  | |- context [String.eqb ?s ?t] => settle_test (String.eqb s t)
  end; cbv iota.

Lemma reply_run E chat t d :
  wire (hafter (Bot.reply E chat t) d) = wire d ∧
  (houtcome (Bot.reply E chat t) d = Fine tt →
   outbox (hafter (Bot.reply E chat t) d) = (chat, t) :: outbox d).
Proof.
  unfold hafter, houtcome, Bot.reply.
  by destruct (sendMessage_returns E _).
Qed.

(** X8. A command with the wrong number of words never reaches the
    registry: the handler makes no request and, if the delivery goes
    through, answers with the usage line of the command. *)
Theorem wrong_arity_stays_local (P : builtins) (S : service) (E : env)
    chat first rest d :
  let parts := first :: rest in
  let cmd := Bot.lower first in
  (cmd ∈ ["/turn_on"; "/turn_off"]%string ∧ length parts ≠ 3%nat) ∨
  (cmd ∈ ["/turn_on_all"; "/turn_off_all"; "/remove_lab"; "/remove_sensor";
          "/remove_actuator"]%string ∧ length parts ≠ 2%nat) ∨
  (cmd = "/add_lab"%string ∧ (length parts < 3)%nat) ∨
  (cmd ∈ ["/add_sensor"; "/add_actuator"]%string ∧ length parts ≠ 4%nat) →
  wire (hafter (Bot.dispatch P S E chat parts) d) = wire d ∧
  (houtcome (Bot.dispatch P S E chat parts) d = Fine tt →
   ∃ usage, outbox (hafter (Bot.dispatch P S E chat parts) d)
            = (chat, ("Usage: " +:+ cmd +:+ usage)%string) :: outbox d).
Proof.
  intros parts cmd Hcase.
  assert (Hshape : ∃ usage, ∀ d0,
            Bot.dispatch P S E chat parts d0
            = Bot.reply E chat ("Usage: " +:+ cmd +:+ usage)%string d0).
  { unfold Bot.dispatch. subst parts cmd.
    destruct Hcase as [[Hc Hn] | [[Hc Hn] | [[Hc Hn] | [Hc Hn]]]];
      repeat (apply elem_of_cons in Hc as [Hc | Hc]);
      try (by apply elem_of_nil in Hc);
      rewrite Hc; settle_tests;
      try (apply Nat.eqb_neq in Hn; rewrite Hn);
      try (apply Nat.ltb_lt in Hn; rewrite Hn);
      cbv [negb]; eexists; intros d0; reflexivity. }
  destruct Hshape as (usage & Hrun).
  unfold hafter, houtcome. rewrite Hrun.
  destruct (reply_run E chat ("Usage: " +:+ cmd +:+ usage)%string d) as [Hw Ho].
  split; [exact Hw|]. intros Hfine. exists usage. by apply Ho.
Qed.

(** ** Commands for every actuator *)

Lemma hbind_fine {A B} (m : H A) (k : A → H B) d b :
  houtcome (hbind m k) d = Fine b →
  ∃ a, houtcome m d = Fine a ∧
       houtcome (k a) (hafter m d) = Fine b ∧
       hafter (hbind m k) d = hafter (k a) (hafter m d).
Proof.
  unfold houtcome, hafter, hbind.
  destruct (m d) as [[a|f] d']; [|discriminate]. intros Hb. by exists a.
Qed.

Lemma of_result_fine {A} (r : result A) d a :
  houtcome (of_result r) d = Fine a → r = Ok a.
Proof. unfold houtcome, of_result. by destruct r; intros [= ->]. Qed.

Section TurnAll.

Variable P : builtins.
Variable S : service.
Variable E : env.

(** The loop over the actuators sends one command for each actuator it
    gets through, in the order of the list. *)
Lemma turn_all_wire lab_id action acts : ∀ d errors,
  houtcome (Bot.turn_all P S lab_id action acts) d = Fine errors →
  ∃ ids, rmap (λ act, Py.get act "actuator_id" JNull) acts = Ok ids ∧
    wire (hafter (Bot.turn_all P S lab_id action acts) d)
    = reverse (map (λ id, POST (Bot.url S "command")
                            (Bot.command lab_id id action)) ids) ++ wire d.
Proof.
  induction acts as [|act rest IH]; intros d errors Hfine.
  - exists []. by split.
  - simpl in Hfine |- *.
    apply hbind_fine in Hfine as (aid & Haid & Hfine & ->).
    apply of_result_fine in Haid.
    change (hafter (of_result ?r) d) with d in Hfine |- *.
    apply hbind_fine in Hfine as (res & _ & Hfine & ->).
    change (hafter (Bot._post S ?ep ?pl) d)
      with (Desk (globals d) (POST (Bot.url S ep) pl :: wire d) (outbox d))
      in Hfine |- *.
    set (d1 := Desk (globals d) _ (outbox d)) in Hfine |- *.
    apply hbind_fine in Hfine as (ok & _ & Hfine & ->).
    change (hafter (of_result ?r) d1) with d1 in Hfine |- *.
    apply hbind_fine in Hfine as (failed & _ & Hfine & ->).
    match type of Hfine with
    | context [hafter ?m d1] =>
        assert (Hstill : hafter m d1 = d1)
    end.
    { destruct (Py.truthy ok); [reflexivity|].
      unfold hafter, hbind, of_result, hret.
      by destruct (Py.get res "error" (JStr "unknown")). }
    rewrite Hstill in Hfine |- *.
    apply hbind_fine in Hfine as (more & Hmore & _ & ->).
    destruct (IH d1 more Hmore) as (ids & Hids & Hwire).
    change (hafter (hret ?x) ?y) with y.
    exists (aid :: ids). split.
    + unfold rbind. by rewrite Haid, Hids.
    + rewrite Hwire. subst d1. simpl.
      by rewrite reverse_cons, <- app_assoc.
Qed.

End TurnAll.

(** X9. [/turn_on_all] and [/turn_off_all] ask the registry for the
    status, take the first lab of that name in the answer and, when the
    handler gets through, have sent one command for each actuator of the
    lab, in the order of the answer, all with the same action; when no
    lab has the name, the status request is the only one and the answer
    is "Lab not found.". *)
Theorem turn_all_commands_each_actuator (P : builtins) (S : service) (E : env)
    chat first lab_id d doc labs :
  let cmd := Bot.lower first in
  let action := if String.eqb cmd "/turn_on_all" then "ON"%string
                else "OFF"%string in
  let run := Bot.dispatch P S E chat [first; lab_id] in
  cmd ∈ ["/turn_on_all"; "/turn_off_all"]%string →
  registry S (length (wire d)) = Responded true (Some (JObj doc)) →
  Py.assoc "labs" doc = Some (JArr labs) →
  houtcome run d = Fine tt →
  ∃ found, Bot.labs_named lab_id labs = Ok found ∧
    match found with
    | [] => wire (hafter run d) = GET (Bot.url S "status") :: wire d ∧
            outbox (hafter run d) = (chat, "Lab not found."%string) :: outbox d
    | lab :: _ =>
        ∃ listed acts ids,
          Py.get lab "actuators" (JArr []) = Ok listed ∧
          Py.iter listed = Ok acts ∧
          rmap (λ act, Py.get act "actuator_id" JNull) acts = Ok ids ∧
          wire (hafter run d)
          = reverse (map (λ id, POST (Bot.url S "command")
                                  (Bot.command lab_id id action)) ids)
            ++ GET (Bot.url S "status") :: wire d
    end.
Proof.
  intros cmd action run Hcmd Hreg Hlabs Hfine. subst run cmd.
  pose (rest := λ act : string,
     let+ labs := of_result (Bot.labs_named lab_id labs) in
     match labs with
     | [] => Bot.reply E chat "Lab not found."
     | lab :: _ =>
         let+ acts := of_result (Py.get lab "actuators" (JArr [])) in
         let+ acts := of_result (Py.iter acts) in
         let+ errors := Bot.turn_all P S lab_id
           (if String.eqb act "/turn_on_all" then "ON" else "OFF")%string acts in
         Bot.reply E chat match errors with
                          | [] => "Done."%string
                          | _ => String.concat Bot.nl errors
                          end
     end).
  pose (d0 := Desk (record (Fetched "status") (globals d))
                   (GET (Bot.url S "status") :: wire d) (outbox d)).
  assert (Hrun : ∀ act, act ∈ ["/turn_on_all"; "/turn_off_all"]%string →
            Bot.lower first = act →
            Bot.dispatch P S E chat [first; lab_id] d = rest act d0).
  { intros act Hin Hact. unfold Bot.dispatch. rewrite Hact.
    repeat (apply elem_of_cons in Hin as [-> | Hin]);
      try (by apply elem_of_nil in Hin);
      settle_tests; simpl;
      unfold hbind at 1, Bot.fetch, hbind at 1, Bot.ask, on_globals, _get;
      simpl; rewrite Hreg; simpl;
      unfold hbind at 1, of_result at 1; simpl; rewrite Hlabs; simpl;
      unfold hbind at 1, of_result at 1; simpl; reflexivity. }
  specialize (Hrun _ Hcmd eq_refl).
  assert (Ho : houtcome (Bot.dispatch P S E chat [first; lab_id]) d
               = houtcome (rest (Bot.lower first)) d0)
    by (unfold houtcome; by rewrite Hrun).
  assert (Ha : hafter (Bot.dispatch P S E chat [first; lab_id]) d
               = hafter (rest (Bot.lower first)) d0)
    by (unfold hafter; by rewrite Hrun).
  rewrite Ho in Hfine. rewrite Ha. clear Hrun Ho Ha. subst rest.
  cbv beta in Hfine |- *.
  apply hbind_fine in Hfine as (found & Hfound & Hfine & ->).
  apply of_result_fine in Hfound.
  change (hafter (of_result ?r) d0) with d0 in Hfine |- *.
  exists found. split; [exact Hfound|].
  destruct found as [|lab others].
  - unfold houtcome, hafter, Bot.reply in Hfine |- *. simpl in Hfine |- *.
    by destruct (sendMessage_returns E _).
  - apply hbind_fine in Hfine as (listed & Hlisted & Hfine & ->).
    apply of_result_fine in Hlisted.
    change (hafter (of_result ?r) d0) with d0 in Hfine |- *.
    apply hbind_fine in Hfine as (acts & Hacts & Hfine & ->).
    apply of_result_fine in Hacts.
    change (hafter (of_result ?r) d0) with d0 in Hfine |- *.
    apply hbind_fine in Hfine as (errors & Hloop & Hfine & ->).
    destruct (turn_all_wire P S lab_id _ acts d0 errors Hloop)
      as (ids & Hids & Hwire).
    exists listed, acts, ids. repeat split; try done.
    unfold hafter at 1, Bot.reply.
    destruct (sendMessage_returns E _); simpl; by rewrite Hwire.
Qed.

(** ** What the user is told *)

(** X10. A first word that is no command name gets the answer "Unknown
    command. Use /help", and the registry is not asked. *)
Theorem unknown_command_stays_local (P : builtins) (S : service) (E : env)
    chat first rest d :
  Bot.lower first ∉ commands →
  wire (hafter (Bot.dispatch P S E chat (first :: rest)) d) = wire d ∧
  (houtcome (Bot.dispatch P S E chat (first :: rest)) d = Fine tt →
   outbox (hafter (Bot.dispatch P S E chat (first :: rest)) d)
   = (chat, "Unknown command. Use /help"%string) :: outbox d).
Proof.
  intros Hnot.
  assert (Hne : ∀ c, c ∈ commands → Bot.lower first ≠ c).
  { intros c Hc Heq. rewrite Heq in Hnot. contradiction. }
  assert (Hrun : ∀ d0, Bot.dispatch P S E chat (first :: rest) d0
                       = Bot.reply E chat "Unknown command. Use /help" d0).
  { intros d0. unfold Bot.dispatch.
    repeat match goal with
    | |- context [bool_decide (Bot.lower first ∈ ?l)] =>
        rewrite (bool_decide_eq_false_2 (Bot.lower first ∈ l))
    | |- context [String.eqb (Bot.lower first) ?c] =>
        rewrite (proj2 (String.eqb_neq (Bot.lower first) c))
    end; try reflexivity;
    try (apply Hne; unfold commands; repeat constructor);
    intros Hin; repeat (apply elem_of_cons in Hin as [Hin|Hin]);
    try (by apply elem_of_nil in Hin);
    revert Hin; apply Hne; unfold commands; repeat constructor. }
  unfold hafter, houtcome. rewrite Hrun. apply reply_run.
Qed.

Section Told.

Variable P : builtins.
Variable S : service.
Variable E : env.

(** What [_post] followed by the verdict tells when the request fails. *)
Lemma post_refused chat ep payload d body :
  registry S (length (wire d)) = Responded false body →
  sendMessage_returns E (send_calls (globals d)) = true →
  outbox (hafter (let+ res := Bot._post S ep payload in
                  Bot.report P E chat res) d)
  = (chat, "Error: registry unreachable"%string) :: outbox d.
Proof.
  intros Hreg Hsend.
  unfold hafter, hbind, Bot._post, hbind, Bot.ask, hret. simpl.
  rewrite Hreg. simpl.
  unfold Bot.report, hbind, of_result, Bot.verdict, Bot.reply. simpl.
  by rewrite Hsend.
Qed.

(** What [requests.delete] followed by the verdict tells when the
    registry refuses and says why. *)
Lemma delete_refused chat path d success why :
  registry S (length (wire d))
  = Responded success
      (Some (JObj [("ok"%string, JBool false); ("error"%string, JStr why)])) →
  sendMessage_returns E (send_calls (globals d)) = true →
  outbox (hafter (let+ res := Bot.delete S path in
                  Bot.report P E chat res) d)
  = (chat, ("Error: " +:+ why)%string) :: outbox d.
Proof.
  intros Hreg Hsend.
  unfold hafter, hbind, Bot.delete, hbind, Bot.ask, hret. simpl.
  rewrite Hreg. simpl.
  unfold Bot.report, hbind, of_result, Bot.verdict, Bot.reply. simpl.
  by rewrite Hsend.
Qed.

End Told.

(** X11. When the registry answers a request with an error status, the
    commands that post ([/turn_on], [/turn_off], [/add_lab],
    [/add_sensor], [/add_actuator]) tell the user "Error: registry
    unreachable" whatever the body of the answer says, while the commands
    that delete ([/remove_lab], [/remove_sensor], [/remove_actuator]) tell
    the error the registry gives in the body. *)
Theorem posts_hide_the_reason (P : builtins) (S : service) (E : env)
    chat first rest d body why :
  let parts := first :: rest in
  let cmd := Bot.lower first in
  let d' := hafter (Bot.dispatch P S E chat parts) d in
  registry S (length (wire d)) = Responded false body →
  sendMessage_returns E (send_calls (globals d)) = true →
  ((cmd ∈ ["/turn_on"; "/turn_off"]%string ∧ length parts = 3%nat) ∨
   (cmd = "/add_lab"%string ∧ (3 ≤ length parts)%nat) ∨
   (cmd ∈ ["/add_sensor"; "/add_actuator"]%string ∧ length parts = 4%nat) →
   outbox d' = (chat, "Error: registry unreachable"%string) :: outbox d) ∧
  (cmd ∈ ["/remove_lab"; "/remove_sensor"; "/remove_actuator"]%string ∧
   length parts = 2%nat →
   body = Some (JObj [("ok"%string, JBool false); ("error"%string, JStr why)]) →
   outbox d' = (chat, ("Error: " +:+ why)%string) :: outbox d).
Proof.
  intros parts cmd d' Hreg Hsend. subst d' cmd parts. split.
  - intros Hcase. unfold Bot.dispatch.
    destruct Hcase as [[Hc Hn] | [[Hc Hn] | [Hc Hn]]];
      repeat (apply elem_of_cons in Hc as [Hc | Hc]);
      try (by apply elem_of_nil in Hc);
      rewrite Hc; settle_tests;
      try rewrite Hn; try (apply Nat.ltb_ge in Hn; rewrite Hn);
      cbn [Nat.eqb negb];
      exact (post_refused P S E chat _ _ d body Hreg Hsend).
  - intros [Hc Hn] ->. unfold Bot.dispatch.
    repeat (apply elem_of_cons in Hc as [Hc | Hc]);
      try (by apply elem_of_nil in Hc);
      rewrite Hc; settle_tests; rewrite Hn; cbn [Nat.eqb negb];
      exact (delete_refused P S E chat _ d false why Hreg Hsend).
Qed.

(** X12. When the request for the status or the list of the labs fails
    (no connection, an error status, or a body that is not JSON), the
    user is told what an empty registry is told: "No labs registered."
    for [/status] and "No labs." for [/list_labs]. *)
Theorem failed_fetch_reads_as_no_labs (P : builtins) (S : service) (E : env)
    chat first rest d :
  let cmd := Bot.lower first in
  let d' := hafter (Bot.dispatch P S E chat (first :: rest)) d in
  (∀ j, Bot.checked (registry S (length (wire d))) ≠ Body j) →
  sendMessage_returns E (send_calls (globals d)) = true →
  (cmd = "/status"%string →
   outbox d' = (chat, "No labs registered."%string) :: outbox d) ∧
  (cmd = "/list_labs"%string →
   outbox d' = (chat, "No labs."%string) :: outbox d).
Proof.
  intros cmd d' Hfail Hsend. subst cmd d'.
  assert (Hget : ∀ ep, Bot.fetch S ep d
     = (Fine Bot.unreachable,
        Desk (record (Fetched ep) (globals d))
             (GET (Bot.url S ep) :: wire d) (outbox d))).
  { intros ep. unfold Bot.fetch, hbind, Bot.ask, on_globals, _get. simpl.
    destruct (Bot.checked (registry S (length (wire d)))) as [| | |j] eqn:Hc;
      try reflexivity.
    by destruct (Hfail j). }
  split; intros Hc; unfold Bot.dispatch, hafter; rewrite Hc; settle_tests;
    unfold hbind at 1; rewrite Hget;
    unfold hbind, of_result, Bot.reply; simpl; by rewrite Hsend.
Qed.

(** Listing dictionaries of which one has no "lab_id" ends in
    [KeyError]. *)
Lemma amap_lab_item_keyerror P labs :
  Forall (λ l, ∃ kvs, l = JObj kvs) labs →
  Exists (λ l, ∃ kvs, l = JObj kvs ∧ Py.assoc "lab_id" kvs = None) labs →
  amap (Bot.lab_item P) labs = Failed KeyError.
Proof.
  induction labs as [|l labs IH]; intros Hall Hex.
  - by apply Exists_nil in Hex.
  - apply Forall_cons in Hall as [(kvs & ->) Hall]. simpl.
    unfold Bot.lab_item at 1, Bot.item. simpl.
    destruct (Py.assoc "lab_id" kvs) as [v|] eqn:Hid; [|reflexivity].
    apply Exists_cons in Hex as [(kvs' & [= <-] & Hnone) | Hex]; [congruence|].
    by rewrite (IH Hall Hex).
Qed.

(** X13. [/list_labs] reads the identifier of a lab with [l['lab_id']]:
    when the registry lists labs of which one has no "lab_id", the
    handler ends in [KeyError] and the user is told nothing. *)
Theorem list_labs_needs_every_lab_id (P : builtins) (S : service) (E : env)
    chat first rest d doc labs :
  Bot.lower first = "/list_labs"%string →
  registry S (length (wire d)) = Responded true (Some (JObj doc)) →
  Py.assoc "labs" doc = Some (JArr labs) →
  Forall (λ l, ∃ kvs, l = JObj kvs) labs →
  Exists (λ l, ∃ kvs, l = JObj kvs ∧ Py.assoc "lab_id" kvs = None) labs →
  houtcome (Bot.dispatch P S E chat (first :: rest)) d = Failed KeyError ∧
  outbox (hafter (Bot.dispatch P S E chat (first :: rest)) d) = outbox d.
Proof.
  intros Hc Hreg Hlabs Hall Hex.
  unfold houtcome, hafter, Bot.dispatch. rewrite Hc. settle_tests.
  unfold hbind at 1 3, Bot.fetch, hbind, Bot.ask, on_globals, _get. simpl.
  rewrite Hreg. simpl. unfold of_result, of_attempt. simpl. rewrite Hlabs. simpl.
  destruct labs as [|l labs]; [by apply Exists_nil in Hex|]. cbn [negb].
  by rewrite (amap_lab_item_keyerror P _ Hall Hex).
Qed.

(** X14. A chat that greets the bot is served from the next cycle on:
    once [handle] has dealt with its [/start] or [/help], a cycle of the
    alert loop writes down no firing of which the chat has not been sent
    the message. When the chat service delivers every message and the
    handler thread adds no chat during the cycle, the chat is sent
    exactly one message for each firing the cycle writes down. *)
Theorem greeted_chat_hears_firings (P : builtins) (S : service) (E : env)
    msg d r :
  greets P msg →
  let w := globals (hafter (Bot.handle P S E msg) d) in
  let w' := after (poll_cycle E r) w in
  chat_id msg ∈ KNOWN_CHATS w ∧
  ∃ ds fs,
    deliveries w' = deliveries w ++ ds ∧
    firings w' = firings w ++ fs ∧
    (length fs ≤ deliveries_to (chat_id msg) ds)%nat ∧
    ((∀ n, sendMessage_returns E n = true) → undisturbed E →
     deliveries_to (chat_id msg) ds = length fs).
Proof.
  intros Hgreets w w'.
  assert (Hin : chat_id msg ∈ KNOWN_CHATS w).
  { subst w.
    destruct (handle_cases P S E msg) as [[Hno _] | (_ & first & rest & Hcmd & Heq)];
      [contradiction|].
    unfold hafter. rewrite Heq.
    destruct (dispatch_greeting P S E (chat_id msg) first rest d Hcmd) as (Hk & _).
    unfold hafter in Hk. rewrite Hk. apply elem_of_union_l.
    by apply elem_of_singleton. }
  split; [exact Hin|].
  destruct (poll_cycle_heard E r w) as (_ & new & Hj & Hn). fold w' in Hj.
  exists (reverse (sent new)), (reverse (tracked new)).
  split; [|split; [|split]].
  - unfold deliveries. by rewrite Hj, sent_app, reverse_app.
  - unfold firings. by rewrite Hj, tracked_app, reverse_app.
  - rewrite deliveries_to_reverse, length_reverse. by apply Hn.
  - intros Hrel Hnone.
    destruct (poll_cycle_announced E Hrel Hnone r w) as (_ & new' & Hj' & Hn').
    fold w' in Hj'. rewrite Hj in Hj'. apply app_inv_tail in Hj' as ->.
    rewrite deliveries_to_reverse, length_reverse. by apply Hn'.
Qed.

(** ** The status text *)

Section Status.

Variable P : builtins.

Lemma get_dict x k d : is_dict x → ∃ v, Py.get x k d = Ok v.
Proof. intros [kvs ->]. by eexists. Qed.

Lemma or_dict_is_dict x : falsy_or_dict x → is_dict (Py.or_ x (JObj [])).
Proof.
  unfold Py.or_. intros [Hf | Hd].
  - rewrite Hf. by exists [].
  - destruct (Py.truthy x); [done | by exists []].
Qed.

Lemma get_absent_or ok kvs k d :
  absent_or ok kvs k → ok d → ∃ v, Py.get (JObj kvs) k d = Ok v ∧ ok v.
Proof.
  unfold absent_or, Py.get. destruct (Py.assoc k kvs) as [v|]; simpl; eauto.
Qed.

Lemma sensor_line_total s :
  entry_ok "reading" s → ∃ t, Bot.sensor_line P s = Ok t.
Proof.
  intros (kvs & -> & Hrd). unfold Bot.sensor_line.
  destruct (get_absent_or _ kvs "reading" JNull Hrd) as (reading & -> & Hr).
  { by left. }
  simpl. destruct (or_dict_is_dict _ Hr) as [rd ->]. simpl. by eexists.
Qed.

Lemma actuator_line_total a :
  entry_ok "state" a → ∃ t, Bot.actuator_line P a = Ok t.
Proof.
  intros (kvs & -> & Hst). unfold Bot.actuator_line.
  destruct (get_absent_or _ kvs "state" JNull Hst) as (state & -> & Hs).
  { by left. }
  simpl. destruct (or_dict_is_dict _ Hs) as [st ->]. simpl. by eexists.
Qed.

Lemma rmap_total {A B} (f : A → result B) (ok : A → Prop) xs :
  (∀ x, ok x → ∃ y, f x = Ok y) → Forall ok xs → ∃ ys, rmap f xs = Ok ys.
Proof.
  intros Hf. induction 1 as [|x xs Hx _ (ys & IH)]; [by exists []|].
  destruct (Hf x Hx) as (y & Hy). simpl. rewrite Hy, IH. simpl. by eexists.
Qed.

Lemma lab_lines_total lab : lab_ok lab → ∃ ls, Bot.lab_lines P lab = Ok ls.
Proof.
  intros (kvs & -> & Hthr & Hal & Hse & Hac). unfold Bot.lab_lines.
  change (Py.get (JObj kvs) ?k ?d) with (Ok (A:=json) (default d (Py.assoc k kvs))).
  cbn [rbind].
  destruct (get_absent_or _ kvs "thresholds" (JObj []) Hthr) as (thr & Ethr & [t ->]).
  { by exists []. }
  injection Ethr as ->. cbn [rbind Py.get].
  destruct (get_absent_or _ kvs "alerts" (JObj []) Hal) as (al & Eal & [a ->]).
  { by exists []. }
  injection Eal as ->. cbn [rbind Py.get].
  destruct (get_absent_or _ kvs "sensors" (JArr []) Hse)
    as (se & Ese & (sensors & -> & Hsensors)).
  { exists []. by split. }
  injection Ese as ->. cbn [rbind Py.iter].
  destruct (rmap_total (Bot.sensor_line P) _ sensors sensor_line_total Hsensors)
    as (sl & ->).
  cbn [rbind].
  destruct (get_absent_or _ kvs "actuators" (JArr []) Hac)
    as (ac & Eac & (actuators & -> & Hactuators)).
  { exists []. by split. }
  injection Eac as ->. cbn [rbind Py.iter].
  destruct (rmap_total (Bot.actuator_line P) _ actuators actuator_line_total
              Hactuators) as (al' & ->).
  cbn [rbind]. by eexists.
Qed.

End Status.

(** X15. [fmt_status] gets through every status document of the shape
    the registry sends, whatever fields are missing from it: it raises
    nothing on a document without labs, on a lab without thresholds,
    alerts, sensors or actuators, or on a sensor or an actuator without
    a reading or a state; and without labs the text is "No labs
    registered.". *)
Theorem fmt_status_tolerates_missing_fields (P : builtins) data :
  status_ok data →
  (∃ t, Bot.fmt_status P data = Ok t) ∧
  (∀ kvs, data = JObj kvs →
     Py.assoc "labs" kvs = None ∨ Py.assoc "labs" kvs = Some (JArr []) →
     Bot.fmt_status P data = Ok "No labs registered."%string).
Proof.
  intros (kvs & -> & Hlabs). split.
  - unfold Bot.fmt_status.
    destruct (get_absent_or _ kvs "labs" (JArr []) Hlabs)
      as (labs & -> & (ls & -> & Hls)).
    { exists []. by split. }
    cbn [rbind]. destruct (negb _); [by eexists|]. cbn [rbind Py.iter].
    destruct (rmap_total (Bot.lab_lines P) _ ls (lab_lines_total P) Hls)
      as (blocks & ->).
    cbn [rbind]. by eexists.
  - intros kvs' [= <-] [Hnone | Hempty]; unfold Bot.fmt_status, Py.get.
    + by rewrite Hnone.
    + by rewrite Hempty.
Qed.

(** ** Slashes in the request URL *)

Lemma lstrip_slash_cons s : Bot.lstrip_slash (String "/" s) = Bot.lstrip_slash s.
Proof. reflexivity. Qed.

Lemma rstrip_slash_snoc s :
  Bot.rstrip_slash (s +:+ "/") = Bot.rstrip_slash s.
Proof.
  induction s as [|c s IH]; [reflexivity|].
  change (String c s +:+ "/")%string with (String c (s +:+ "/")).
  simpl. by rewrite IH.
Qed.

(** X16. The URL of a request does not depend on the slashes at the end
    of the configured base URL or at the start of the endpoint: one more
    slash on either side gives the same URL. *)
Theorem url_ignores_extra_slashes (api : string) (registry : nat → http_result)
    endpoint :
  Bot.url (Service (api +:+ "/") registry) endpoint
  = Bot.url (Service api registry) endpoint ∧
  Bot.url (Service api registry) ("/" +:+ endpoint)
  = Bot.url (Service api registry) endpoint.
Proof.
  unfold Bot.url. simpl. split.
  - by rewrite rstrip_slash_snoc.
  - reflexivity.
Qed.

(** ** Quoted identifiers *)

Lemma append_cons c s t : (String c s +:+ t)%string = String c (s +:+ t)%string.
Proof. reflexivity. Qed.

(** The two hexadecimal digits of an escape give the byte back. *)
Lemma unquote_escape c q :
  Bridge.unquote (Bridge.escape c +:+ q) = String c (Bridge.unquote q).
Proof. destruct c as [[] [] [] [] [] [] [] []]; reflexivity. Qed.

(** A character that [quote] keeps is not the percent sign. *)
Lemma kept_is_not_percent c :
  Bridge.always_safe c || Ascii.eqb c "/" = true → Ascii.eqb c "%" = false.
Proof. destruct c as [[] [] [] [] [] [] [] []]; vm_compute; done. Qed.

Lemma escape_plain c : Bridge.all_chars Bridge.quoted_char (Bridge.escape c) = true.
Proof. destruct c as [[] [] [] [] [] [] [] []]; reflexivity. Qed.

Lemma unquote_quote s : Bridge.unquote (Bridge.quote s) = s.
Proof.
  induction s as [|c s IH]; [reflexivity|]. simpl Bridge.quote.
  destruct (Bridge.always_safe c || Ascii.eqb c "/") eqn:Hkept.
  - rewrite append_cons. simpl Bridge.unquote.
    rewrite (kept_is_not_percent c Hkept).
    change (("" +:+ ?q)%string) with q. by rewrite IH.
  - by rewrite unquote_escape, IH.
Qed.

(** X17. [quote] loses nothing: percent-decoding a quoted identifier
    gives the identifier back, so two different identifiers never give
    the same quoted text, and the requests to remove or to update two
    different labs, sensors, actuators or thresholds go to different
    paths. *)
Theorem quoted_ids_do_not_collide (a b : string) :
  Bridge.unquote (Bridge.quote a) = a ∧
  (Bridge.quote a = Bridge.quote b → a = b) ∧
  (Bridge.path (Bridge.remove_lab a) = Bridge.path (Bridge.remove_lab b)
   → a = b) ∧
  (Bridge.path (Bridge.remove_sensor a) = Bridge.path (Bridge.remove_sensor b)
   → a = b) ∧
  (Bridge.path (Bridge.remove_actuator a) = Bridge.path (Bridge.remove_actuator b)
   → a = b) ∧
  (∀ fa fb, Bridge.path (Bridge.update_lab a fa)
            = Bridge.path (Bridge.update_lab b fb) → a = b) ∧
  (∀ fa fb, Bridge.path (Bridge.update_sensor a fa)
            = Bridge.path (Bridge.update_sensor b fb) → a = b) ∧
  (∀ fa fb, Bridge.path (Bridge.update_actuator a fa)
            = Bridge.path (Bridge.update_actuator b fb) → a = b) ∧
  (∀ fa fb, Bridge.path (Bridge.update_threshold a fa)
            = Bridge.path (Bridge.update_threshold b fb) → a = b).
Proof.
  assert (Hinj : Bridge.quote a = Bridge.quote b → a = b).
  { intros Heq. rewrite <- (unquote_quote a), <- (unquote_quote b).
    by rewrite Heq. }
  split; [apply unquote_quote|]. split; [exact Hinj|].
  repeat split; try intros fa fb; simpl; rewrite !append_cons;
    intros Heq; apply Hinj; by injection Heq.
Qed.

Lemma all_chars_app p s t :
  Bridge.all_chars p (s +:+ t) = Bridge.all_chars p s && Bridge.all_chars p t.
Proof.
  induction s as [|c s IH]; [reflexivity|].
  rewrite append_cons. simpl. by rewrite IH, andb_assoc.
Qed.

Lemma quote_plain s : Bridge.all_chars Bridge.quoted_char (Bridge.quote s) = true.
Proof.
  induction s as [|c s IH]; [reflexivity|]. simpl Bridge.quote.
  rewrite all_chars_app, IH, andb_true_r.
  destruct (Bridge.always_safe c || Ascii.eqb c "/") eqn:Hkept.
  - simpl. unfold Bridge.quoted_char. by rewrite Hkept.
  - apply escape_plain.
Qed.

Lemma all_chars_In p s c :
  Bridge.all_chars p s = true → In c (list_ascii_of_string s) → p c = true.
Proof.
  induction s as [|c' s IH]; simpl; [done|].
  intros [Hc Hs]%andb_true_iff [<- | Hin]; auto.
Qed.

(** X18. A quoted identifier is made of letters, digits, [_.-~], slashes
    and percent escapes: it has no [?], [#], [&], [=] or space, so an
    identifier cannot add a query or a fragment to the path it is put
    in. A slash is not escaped: an identifier of letters, digits,
    [_.-~] and slashes is put in the path as it is. *)
Theorem quoted_id_stays_in_the_path (s : string) :
  (∀ c, In c (list_ascii_of_string (Bridge.quote s)) →
        c ∉ ["?"; "#"; "&"; "="; " "]%char) ∧
  (Bridge.all_chars (λ c, Bridge.always_safe c || Ascii.eqb c "/") s = true →
   Bridge.quote s = s).
Proof.
  split.
  - intros c Hin Hbad.
    apply (all_chars_In _ _ _ (quote_plain s)) in Hin.
    repeat (apply elem_of_cons in Hbad as [-> | Hbad]); try discriminate.
    by apply elem_of_nil in Hbad.
  - induction s as [|c s IH]; [reflexivity|]. simpl.
    intros [Hc Hs]%andb_true_iff. rewrite Hc, append_cons.
    change (("" +:+ ?q)%string) with q. by rewrite IH.
Qed.

(** X19. An answer with an error status never makes [_request] raise:
    it returns the body when the body is JSON, so that what the registry
    says reaches the caller, and a document with the reason otherwise;
    [_post] of the bot turns the same answer into "registry unreachable"
    whatever the body says. With a success status, a body that is not
    JSON makes [_request] raise. *)
Theorem refusal_reaches_the_bridge_caller (loads : string → option json)
    reason text j :
  loads text = Some j →
  Bridge._request loads (Bridge.HttpError reason (Some text)) = Bridge.Returns j ∧
  (∀ body, ∃ j', Bridge._request loads (Bridge.HttpError reason body)
                 = Bridge.Returns j') ∧
  (∀ S ep payload d,
     registry S (length (wire d)) = Responded false (Some j) →
     houtcome (Bot._post S ep payload) d = Fine Bot.unreachable) ∧
  (∀ other, other ≠ ""%string → loads other = None →
     Bridge._request loads (Bridge.Success (Some other)) = Bridge.Propagates).
Proof.
  intros Hj. split; [|split; [|split]].
  - simpl. by rewrite Hj.
  - intros [t|]; simpl; [|by eexists]. destruct (loads t); by eexists.
  - intros S ep payload d Hreg.
    unfold houtcome, Bot._post, hbind, Bot.ask, hret. simpl. by rewrite Hreg.
  - intros other Hne Hnone. simpl.
    apply String.eqb_neq in Hne. by rewrite Hne, Hnone.
Qed.

(** ** The further theorems at sample inputs *)

Module Further.

Import Sample Chat.

Lemma E0_delivers : ∀ n, sendMessage_returns (E0 T0) n = true.
Proof. reflexivity. Qed.

Lemma E0_clock_monotone : monotone (time_time (E0 T0)).
Proof. intros i j Hij. simpl. lia. Qed.

Lemma E0_undisturbed : undisturbed (E0 T0).
Proof. intros n. reflexivity. Qed.

Lemma every_recipient_hears_every_firing_witness :
  (∀ n, sendMessage_returns (E0 T0) n = true) ∧ undisturbed (E0 T0) ∧
  let w' := after (poll_cycle (E0 T0) (Body (status [L2]))) two_chats in
  ∃ ds fs,
    deliveries w' = deliveries two_chats ++ ds ∧
    firings w' = firings two_chats ++ fs ∧
    ∀ chat, chat ∈ KNOWN_CHATS two_chats → deliveries_to chat ds = length fs.
Proof.
  split; [exact E0_delivers|]. split; [exact E0_undisturbed|].
  destruct (every_recipient_hears_every_firing (E0 T0) (Body (status [L2]))
              two_chats) as (ds & fs & Hd & Hf & _ & Heq).
  exists ds, fs. split; [exact Hd|]. split; [exact Hf|].
  exact (Heq E0_delivers E0_undisturbed).
Defined.

Lemma entries_never_recede_witness :
  monotone (time_time (E0 T0)) ∧
  _last_alert (after (poll_alerts (E0 T0) [Tick [7] (Body (status [L1]))]) boot)
    !! (Py.KStr "L1", "t_high"%string) = Some (T0 + 1) ∧
  ∃ b, _last_alert
         (after (poll_cycle (E0 T0) (Body (status [L1])))
            (after (poll_alerts (E0 T0) [Tick [7] (Body (status [L1]))]) boot))
         !! (Py.KStr "L1", "t_high"%string) = Some b ∧ T0 + 1 ≤ b.
Proof.
  assert (Hlast : _last_alert
            (after (poll_alerts (E0 T0) [Tick [7] (Body (status [L1]))]) boot)
            !! (Py.KStr "L1", "t_high"%string) = Some (T0 + 1)) by (by vm_compute).
  split; [exact E0_clock_monotone|]. split; [exact Hlast|].
  exact (entries_never_recede (E0 T0) [Tick [7] (Body (status [L1]))]
           (Body (status [L1])) (Py.KStr "L1", "t_high"%string) (T0 + 1)
           E0_clock_monotone Hlast).
Defined.

Lemma shouting_greets : greets plain (said 7 "/START").
Proof.
  split; [reflexivity|]. exists "/START"%string, []. split; [reflexivity|].
  apply (bool_decide_unpack _). by vm_compute.
Qed.

Lemma only_greetings_register_witness :
  greets plain (said 7 "/START") ∧
  KNOWN_CHATS (globals (hafter (Bot.handle plain down (E0 T0) (said 7 "/START"))
                          fresh))
  = {[ 7 ]} ∪ KNOWN_CHATS (globals fresh).
Proof.
  split; [exact shouting_greets|].
  exact (proj1 (only_greetings_register plain down (E0 T0) (said 7 "/START")
                  fresh) shouting_greets).
Defined.

Lemma wrong_arity_stays_local_witness :
  (Bot.lower "/turn_on" ∈ ["/turn_on"; "/turn_off"]%string ∧
   length ["/turn_on"; "L1"]%string ≠ 3%nat) ∧
  wire (hafter (Bot.dispatch plain down (E0 T0) 7 ["/turn_on"; "L1"]%string) fresh)
  = wire fresh.
Proof.
  assert (Hcase : Bot.lower "/turn_on" ∈ ["/turn_on"; "/turn_off"]%string ∧
                  length ["/turn_on"; "L1"]%string ≠ 3%nat).
  { split; [apply (bool_decide_unpack _); by vm_compute | simpl; lia]. }
  split; [exact Hcase|].
  exact (proj1 (wrong_arity_stays_local plain down (E0 T0) 7 "/turn_on"
                  ["L1"%string] fresh (or_introl Hcase))).
Defined.

Lemma turn_all_commands_each_actuator_witness :
  let run := Bot.dispatch plain obliging (E0 T0) 7 ["/turn_off_all"; "L3"]%string in
  houtcome run fresh = Fine tt ∧
  ∃ found, Bot.labs_named "L3" [L3_actuators] = Ok found ∧
    match found with
    | [] => wire (hafter run fresh) = GET (Bot.url obliging "status") :: wire fresh ∧
            outbox (hafter run fresh) = (7, "Lab not found."%string) :: outbox fresh
    | lab :: _ =>
        ∃ listed acts ids,
          Py.get lab "actuators" (JArr []) = Ok listed ∧
          Py.iter listed = Ok acts ∧
          rmap (λ act, Py.get act "actuator_id" JNull) acts = Ok ids ∧
          wire (hafter run fresh)
          = reverse (map (λ id, POST (Bot.url obliging "command")
                                  (Bot.command "L3" id "OFF")) ids)
            ++ GET (Bot.url obliging "status") :: wire fresh
    end.
Proof.
  intros run.
  assert (Hfine : houtcome run fresh = Fine tt) by (by vm_compute).
  split; [exact Hfine|].
  refine (turn_all_commands_each_actuator plain obliging (E0 T0) 7
            "/turn_off_all" "L3" fresh [("labs"%string, JArr [L3_actuators])]
            [L3_actuators] _ eq_refl eq_refl Hfine).
  apply (bool_decide_unpack _). by vm_compute.
Defined.

Lemma unknown_command_stays_local_witness :
  (Bot.lower "hello" ∉ commands) ∧
  wire (hafter (Bot.dispatch plain down (E0 T0) 7 ["hello"%string]) fresh)
  = wire fresh.
Proof.
  assert (Hnot : Bot.lower "hello" ∉ commands).
  { apply (bool_decide_eq_false_1 (Bot.lower "hello" ∈ commands)). by vm_compute. }
  split; [exact Hnot|].
  exact (proj1 (unknown_command_stays_local plain down (E0 T0) 7 "hello" []
                  fresh Hnot)).
Defined.

Lemma posts_hide_the_reason_witness :
  registry refusing (length (wire fresh))
  = Responded false
      (Some (JObj [("ok"%string, JBool false); ("error"%string, JStr "lab exists")])) ∧
  sendMessage_returns (E0 T0) (send_calls (globals fresh)) = true ∧
  outbox (hafter (Bot.dispatch plain refusing (E0 T0) 7
                    ["/add_lab"; "L9"; "kitchen"]%string) fresh)
  = [(7, "Error: registry unreachable"%string)] ∧
  outbox (hafter (Bot.dispatch plain refusing (E0 T0) 7
                    ["/remove_lab"; "L9"]%string) fresh)
  = [(7, "Error: lab exists"%string)].
Proof.
  split; [reflexivity|]. split; [reflexivity|]. split.
  - refine (proj1 (posts_hide_the_reason plain refusing (E0 T0) 7 "/add_lab"
                     ["L9"; "kitchen"]%string fresh _ "lab exists"
                     eq_refl eq_refl) _).
    right. left. split; [reflexivity | simpl; lia].
  - refine (proj2 (posts_hide_the_reason plain refusing (E0 T0) 7 "/remove_lab"
                     ["L9"]%string fresh _ "lab exists" eq_refl eq_refl)
              _ eq_refl).
    split; [apply (bool_decide_unpack _); by vm_compute | reflexivity].
Defined.

Lemma failed_fetch_reads_as_no_labs_witness :
  (∀ j, Bot.checked (registry down (length (wire fresh))) ≠ Body j) ∧
  sendMessage_returns (E0 T0) (send_calls (globals fresh)) = true ∧
  outbox (hafter (Bot.dispatch plain down (E0 T0) 7 ["/status"%string]) fresh)
  = [(7, "No labs registered."%string)].
Proof.
  assert (Hfail : ∀ j, Bot.checked (registry down (length (wire fresh))) ≠ Body j)
    by (intros j; simpl; discriminate).
  split; [exact Hfail|]. split; [reflexivity|].
  exact (proj1 (failed_fetch_reads_as_no_labs plain down (E0 T0) 7 "/status" []
                  fresh Hfail eq_refl) eq_refl).
Defined.

Lemma list_labs_needs_every_lab_id_witness :
  Bot.lower "/list_labs" = "/list_labs"%string ∧
  houtcome (Bot.dispatch plain nameless (E0 T0) 7 ["/list_labs"%string]) fresh
  = Failed KeyError ∧
  outbox (hafter (Bot.dispatch plain nameless (E0 T0) 7 ["/list_labs"%string])
            fresh) = outbox fresh.
Proof.
  split; [reflexivity|].
  refine (list_labs_needs_every_lab_id plain nameless (E0 T0) 7 "/list_labs" []
            fresh _ _ eq_refl eq_refl eq_refl _ _).
  - repeat constructor; by eexists.
  - right. left. eexists. by split.
Defined.

Lemma greeted_chat_hears_firings_witness :
  greets plain (said 7 "/START") ∧
  let w := globals (hafter (Bot.handle plain down (E0 T0) (said 7 "/START"))
                      fresh) in
  let w' := after (poll_cycle (E0 T0) (Body (status [L1]))) w in
  7 ∈ KNOWN_CHATS w ∧
  ∃ ds fs,
    deliveries w' = deliveries w ++ ds ∧
    firings w' = firings w ++ fs ∧
    (length fs ≤ deliveries_to 7 ds)%nat.
Proof.
  split; [exact shouting_greets|].
  destruct (greeted_chat_hears_firings plain down (E0 T0) (said 7 "/START") fresh
              (Body (status [L1])) shouting_greets)
    as (Hin & ds & fs & Hd & Hf & Hle & _).
  split; [exact Hin|]. exists ds, fs. by repeat split.
Defined.

Lemma L1_status_ok : status_ok (status [L1]).
Proof.
  eexists. split; [reflexivity|]. unfold absent_or. simpl.
  eexists. split; [reflexivity|]. repeat constructor.
  eexists. split; [reflexivity|]. unfold absent_or. simpl.
  split; [by eexists|]. split; [done|]. split.
  - eexists. split; [reflexivity|]. repeat constructor.
    eexists. split; [reflexivity|]. unfold absent_or. simpl.
    right. by eexists.
  - eexists. split; [reflexivity|]. constructor.
Qed.

Lemma fmt_status_tolerates_missing_fields_witness :
  status_ok (status [L1]) ∧ ∃ t, Bot.fmt_status plain (status [L1]) = Ok t.
Proof.
  split; [exact L1_status_ok|].
  exact (proj1 (fmt_status_tolerates_missing_fields plain (status [L1])
                  L1_status_ok)).
Defined.

Lemma quoted_ids_do_not_collide_witness :
  Bridge.unquote (Bridge.quote "lab 1/x") = "lab 1/x"%string ∧
  (Bridge.path (Bridge.remove_lab "lab 1") = Bridge.path (Bridge.remove_lab "lab 1")
   → "lab 1"%string = "lab 1"%string).
Proof.
  split.
  - exact (proj1 (quoted_ids_do_not_collide "lab 1/x" "")).
  - exact (proj1 (proj2 (proj2 (quoted_ids_do_not_collide "lab 1" "lab 1")))).
Defined.

Lemma quoted_id_stays_in_the_path_witness :
  Bridge.all_chars (λ c, Bridge.always_safe c || Ascii.eqb c "/") "wing/lab-1"
  = true ∧
  Bridge.quote "wing/lab-1" = "wing/lab-1"%string.
Proof.
  split; [reflexivity|].
  exact (proj2 (quoted_id_stays_in_the_path "wing/lab-1") eq_refl).
Defined.

Lemma refusal_reaches_the_bridge_caller_witness :
  let loads := λ s : string,
    if String.eqb s "{}" then Some (JObj []) else None in
  loads "{}"%string = Some (JObj []) ∧
  Bridge._request loads (Bridge.HttpError "Conflict" (Some "{}"%string))
  = Bridge.Returns (JObj []).
Proof.
  intros loads. split; [reflexivity|].
  exact (proj1 (refusal_reaches_the_bridge_caller loads "Conflict" "{}" (JObj [])
                  eq_refl)).
Defined.

End Further.
